(** * Adversarial-attack toolkit and VAE sampling utility

    Shallow embedding of
    - [assignment3/part2/adversarial_attack.py]: [denormalize],
      [fgsm_attack], [fgsm_loss], [pgd_attack], [test_attack];
    - [assignment3/part1/utils.py]: [sample_reparameterize].

    Modelling conventions.
    - Tensor entries are exact rationals ([Q]); rounding, infinities and
      NaN of the floating-point tensors are outside the model.
    - An image tensor of shape [1, C, H, W] is the list of its [C] channel
      planes, each plane the list of its [H * W] entries.  The batch axis of
      length 1 that the evaluation loop relies on ([.item()]) is implicit.
    - Element-wise binary operations pair the entries of two tensors of the
      same shape.  Broadcasting between different shapes is outside the
      model; every call path below applies them to equal shapes (a clone has
      the shape of its source, a gradient the shape of its input).
    - The classifier is an opaque function from a tensor to its logits, the
      automatic differentiation of the framework an opaque operator
      [input_grad]; parameter gradients of the classifier
      ([model.zero_grad()]) are not part of the state. *)

From Stdlib Require Import QArith Qabs Qminmax Lqa Lia ZArith.
From stdpp Require Import base option list strings.

(** ** Exceptions

    The Python exceptions the embedded code can raise.  [InvalidLocation]
    is not one of them: it guards the tensor store below against a location
    that was never allocated. *)

Inductive exn : Set :=
  | KeyError
  | UnboundLocalError
  | ZeroDivisionError
  | AttributeError
  | AssertionError
  | InvalidLocation.

Inductive outcome (A : Type) : Type :=
  | Return (a : A)
  | Raise (e : exn).
Arguments Return {A} a.
Arguments Raise {A} e.

#[global] Instance outcome_ret : MRet outcome := fun A a => Return a.
#[global] Instance outcome_bind : MBind outcome := fun A B k c =>
  match c with
  | Return a => k a
  | Raise e => Raise e
  end.

(** ** Tensors *)

Abbreviation Tensor := (list (list Q)).

Definition shape (t : Tensor) : list nat := length <$> t.

Definition tmap (f : Q -> Q) (t : Tensor) : Tensor := fmap (M := list) f <$> t.

Definition tzip (f : Q -> Q -> Q) (a b : Tensor) : Tensor :=
  zip_with (zip_with f) a b.

Definition tadd : Tensor -> Tensor -> Tensor := tzip Qplus.
Definition tsub : Tensor -> Tensor -> Tensor := tzip Qminus.
Definition tscale (c : Q) : Tensor -> Tensor := tmap (Qmult c).

(** [torch.sign]: -1, 0 or +1 by the sign of the entry. *)
Definition sign (q : Q) : Q := inject_Z (Z.sgn (Qnum q)).
Definition tsign : Tensor -> Tensor := tmap sign.

(** [torch.clamp(x, min, max)] is [min(max(x, min), max)]: when
    [min > max] every entry becomes [max]. *)
Definition clamp (lo hi x : Q) : Q := Qmin (Qmax x lo) hi.
Definition tclamp (t : Tensor) (lo hi : Q) : Tensor := tmap (clamp lo hi) t.

(** Index of the first largest logit ([output.max(1)[1]] for one row). *)
Fixpoint argmax_from (best_i : nat) (best : Q) (i : nat) (l : list Q) : nat :=
  match l with
  | [] => best_i
  | x :: l' =>
      if Qlt_le_dec best x then argmax_from i x (S i) l'
      else argmax_from best_i best (S i) l'
  end.

Definition argmax (l : list Q) : nat :=
  match l with
  | [] => 0%nat
  | x :: l' => argmax_from 0 x 1 l'
  end.

(** [F.nll_loss(output, target)] for a single row. *)
Definition nll_loss (output : list Q) (target : nat) : Q :=
  (- default 0 (output !! target))%Q.

(** ** The framework and the constants of [globals.py] *)

(** The framework's reverse-mode differentiation, seen from the input:
    [input_grad f x] is the gradient at [x] of the scalar function [f], a
    tensor of the shape of [x].  [CrossEntropyLoss] is the criterion that
    [test_attack] instantiates. *)
Class Torch : Type := {
  input_grad : (Tensor -> Q) -> Tensor -> Tensor;
  input_grad_shape : forall f x, shape (input_grad f x) = shape x;
  CrossEntropyLoss : list Q -> nat -> Q
}.

(** [globals.py] is not among the sources.  Its attack selectors are taken
    as parameters; its dictionary keys [ALPHA], [EPSILON] and [NUM_ITER]
    name the fields of the argument dictionary below. *)
Class Globals : Type := {
  FGSM : string;
  PGD : string
}.

(** The argument dictionary restricted to the keys the code reads; [None]
    is an absent key. *)
Record Args : Type := {
  ALPHA : option Q;
  EPSILON : option Q;
  NUM_ITER : option Z
}.

Definition getitem {A : Type} (entry : option A) : outcome A :=
  match entry with
  | Some v => Return v
  | None => Raise KeyError
  end.

(** ** [denormalize] *)

Definition default_mean : list Q := [4914 # 10000; 4822 # 10000; 4465 # 10000].
Definition default_std : list Q := [247 # 1000; 243 # 1000; 261 # 1000].

(** [batch * std.view(1, -1, 1, 1) + mean.view(1, -1, 1, 1)]: channel [c]
    is scaled by [std[c]] and shifted by [mean[c]].  This is the source on
    a batch with one plane per entry of [mean] and of [std]; the broadcast
    of a single plane over several channels, and the error on any other
    mismatch, are outside the model. *)
Definition denormalize (batch : Tensor) (mean std : list Q) : Tensor :=
  zip_with (fun plane ms => (fun x => (x * snd ms + fst ms)%Q) <$> plane)
           batch (zip mean std).

(** ** [fgsm_attack] *)

Definition fgsm_attack (image data_grad : Tensor) (epsilon : Q) : Tensor :=
  let perturbed_image := tadd image (tscale epsilon (tsign data_grad)) in
  perturbed_image.

(** The default of the keyword argument [epsilon]. *)
Definition fgsm_attack_default (image data_grad : Tensor) : Tensor :=
  fgsm_attack image data_grad (25 # 100).

(** ** [pgd_attack], on values *)

Section Attacks.
Context `{Torch} `{Globals}.

(** One iteration of the loop body. *)
Definition pgd_step (model : Tensor -> list Q) (target : nat)
    (criterion : list Q -> nat -> Q) (alpha epsilon : Q)
    (orig_data adv_data : Tensor) : Tensor :=
  let grad := input_grad (fun x => criterion (model x) target) adv_data in
  let adv_data := fgsm_attack adv_data grad alpha in
  let perturbations := tclamp (tsub adv_data orig_data) (- epsilon)%Q epsilon in
  tclamp (tadd orig_data perturbations) 0%Q 1%Q.

Definition pgd_attack (model : Tensor -> list Q) (data : Tensor)
    (target : nat) (criterion : list Q -> nat -> Q) (args : Args)
    : outcome Tensor :=
  alpha ← getitem (ALPHA args);
  epsilon ← getitem (EPSILON args);
  num_iter ← getitem (NUM_ITER args);
  let orig_data := data in
  let adv_data := data in
  let adv_data :=
    Nat.iter (Z.to_nat num_iter)
             (pgd_step model target criterion alpha epsilon orig_data)
             adv_data in
  let perturbed_data := adv_data in
  mret perturbed_data.

(** ** [test_attack] *)

(** What the evaluation prints. *)
Inductive event : Type :=
  | PrintUnknownAttack (attack_function : string)
  | PrintSummary (attack_function : string) (attack_args : Args)
                 (correct total : nat).

(** An entry of [adv_examples]. *)
Definition adv_entry : Type := (nat * nat * Tensor * Tensor)%type.

(** The local variables that live across iterations of the loop.
    [perturbed_data] is [None] until its first assignment. *)
Record locals : Type := {
  correct : nat;
  adv_examples : list adv_entry;
  perturbed_data : option Tensor
}.

(** The [if / elif / else] on the selector: what is printed, and the
    binding of [perturbed_data] afterwards.  The loop takes the
    denormalisation as a parameter [denorm]; [test_attack] below fixes it
    to [denormalize] with its default mean and std. *)
Definition attack_branch (denorm : Tensor -> Tensor)
    (model : Tensor -> list Q) (data : Tensor) (target : nat)
    (attack_function : string) (attack_args : Args)
    (bound : option Tensor) : list event * outcome (option Tensor) :=
  if decide (attack_function = FGSM) then
    let data_grad := input_grad (fun x => nll_loss (model x) target) data in
    let data_denorm := denorm data in
    ([], epsilon ← getitem (EPSILON attack_args);
         mret (Some (fgsm_attack data_denorm data_grad epsilon)))
  else if decide (attack_function = PGD) then
    ([], perturbed ← pgd_attack model data target CrossEntropyLoss attack_args;
         mret (Some perturbed))
  else
    ([PrintUnknownAttack attack_function], mret bound).

Fixpoint test_loop (denorm : Tensor -> Tensor) (model : Tensor -> list Q)
    (attack_function : string) (attack_args : Args)
    (test_loader : list (Tensor * nat)) (st : locals) (out : list event)
    : list event * outcome locals :=
  match test_loader with
  | [] => (out, Return st)
  | (data, target) :: rest =>
      let output := model data in
      let init_pred := argmax output in
      if decide (init_pred ≠ target) then
        test_loop denorm model attack_function attack_args rest st out
      else
        let branch :=
          attack_branch denorm model data target attack_function attack_args
                        (perturbed_data st) in
        let out := out ++ fst branch in
        match snd branch with
        | Raise e => (out, Raise e)
        | Return None => (out, Raise UnboundLocalError)
        | Return (Some perturbed) =>
            let output := model perturbed in
            let final_pred := argmax output in
            if decide (final_pred = target) then
              test_loop denorm model attack_function attack_args rest
                {| correct := S (correct st);
                   adv_examples := adv_examples st;
                   perturbed_data := Some perturbed |} out
            else if decide (length (adv_examples st) < 5)%nat then
              test_loop denorm model attack_function attack_args rest
                {| correct := correct st;
                   adv_examples :=
                     adv_examples st ++
                       [(init_pred, final_pred, denorm data, denorm perturbed)];
                   perturbed_data := Some perturbed |} out
            else
              test_loop denorm model attack_function attack_args rest
                {| correct := correct st;
                   adv_examples := adv_examples st;
                   perturbed_data := Some perturbed |} out
        end
  end.

Definition test_attack_with (denorm : Tensor -> Tensor)
    (model : Tensor -> list Q) (test_loader : list (Tensor * nat))
    (attack_function : string) (attack_args : Args)
    : list event * outcome (Q * list adv_entry) :=
  let run :=
    test_loop denorm model attack_function attack_args test_loader
      {| correct := 0; adv_examples := []; perturbed_data := None |} [] in
  match snd run with
  | Raise e => (fst run, Raise e)
  | Return st =>
      let total := length test_loader in
      if decide (total = 0)%nat then (fst run, Raise ZeroDivisionError)
      else
        let final_acc := Z.of_nat (correct st) # Pos.of_nat total in
        (fst run ++ [PrintSummary attack_function attack_args (correct st) total],
         Return (final_acc, adv_examples st))
  end.

Definition test_attack (model : Tensor -> list Q)
    (test_loader : list (Tensor * nat)) (attack_function : string)
    (attack_args : Args) : list event * outcome (Q * list adv_entry) :=
  test_attack_with (fun batch => denormalize batch default_mean default_std)
                   model test_loader attack_function attack_args.

End Attacks.

(** ** The tensor store

    [pgd_attack] and [fgsm_loss] once more, now on tensor objects: a tensor
    variable of the source is a location in a store of objects carrying the
    entries, the [requires_grad] flag and the accumulated [.grad].  The
    world also logs the tensors handed to the classifier, one per forward
    pass.  The store holds the tensors that the source binds to a
    variable: the temporaries of an expression and the parameters of the
    classifier, whose [.grad] a backward pass writes as well, are not in
    it. *)

Module Store.

Record tensor_obj : Type := {
  values : Tensor;
  requires_grad : bool;
  grad : option Tensor
}.

Record world : Type := {
  heap : list tensor_obj;
  forward_log : list nat
}.

Definition ST (A : Type) : Type := world -> outcome (A * world).

#[global] Instance ST_ret : MRet ST := fun A a w => Return (a, w).
#[global] Instance ST_bind : MBind ST := fun A B k c w =>
  match c w with
  | Return (a, w') => k a w'
  | Raise e => Raise e
  end.

Definition lift {A : Type} (c : outcome A) : ST A := fun w =>
  match c with
  | Return a => Return (a, w)
  | Raise e => Raise e
  end.

(** A new tensor object; its location is the next free index. *)
Definition alloc (v : Tensor) (rg : bool) : ST nat := fun w =>
  Return (length (heap w),
          {| heap := heap w ++ [{| values := v; requires_grad := rg; grad := None |}];
             forward_log := forward_log w |}).

(** Dereference.  A Python reference never dangles; [InvalidLocation]
    guards the model against a location outside the store. *)
Definition read (l : nat) : ST tensor_obj := fun w =>
  match heap w !! l with
  | Some o => Return (o, w)
  | None => Raise InvalidLocation
  end.

Definition write (l : nat) (o : tensor_obj) : ST unit := fun w =>
  Return (tt, {| heap := <[l := o]> (heap w); forward_log := forward_log w |}).

(** [x.clone().detach()], with [.requires_grad_(True)] when [rg]. *)
Definition clone_detach (l : nat) (rg : bool) : ST nat :=
  o ← read l; alloc (values o) rg.

(** [x.detach()]: a new tensor object on the same entries. *)
Definition detach (l : nat) : ST nat :=
  o ← read l; alloc (values o) false.

(** [x.requires_grad_(True)] and [x.requires_grad = True]. *)
Definition requires_grad_ (l : nat) : ST unit :=
  o ← read l;
  write l {| values := values o; requires_grad := true; grad := grad o |}.

(** [model(x)]. *)
Definition forward {O : Type} (model : Tensor -> O) (l : nat) : ST O := fun w =>
  match heap w !! l with
  | Some o =>
      Return (model (values o),
              {| heap := heap w; forward_log := forward_log w ++ [l] |})
  | None => Raise InvalidLocation
  end.

Definition accumulate (old : option Tensor) (g : Tensor) : Tensor :=
  match old with
  | None => g
  | Some g0 => tadd g0 g
  end.

(** [loss.backward()] for a loss [f] of the tensor at [l]: the gradient is
    accumulated into [.grad] when the tensor requires it. *)
Definition backward `{Torch} (f : Tensor -> Q) (l : nat) : ST unit :=
  o ← read l;
  if requires_grad o then
    write l {| values := values o; requires_grad := true;
               grad := Some (accumulate (grad o) (input_grad f (values o))) |}
  else mret tt.

(** [x.grad.data]. *)
Definition grad_data (l : nat) : ST Tensor :=
  o ← read l;
  lift (match grad o with
        | Some g => Return g
        | None => Raise AttributeError
        end).

Section WithTorch.
Context `{Torch}.

Fixpoint pgd_loop (num_iter : nat) (model : Tensor -> list Q) (target : nat)
    (criterion : list Q -> nat -> Q) (alpha epsilon : Q)
    (orig_data adv_data : nat) : ST nat :=
  match num_iter with
  | O => mret adv_data
  | S num_iter' =>
      _ ← requires_grad_ adv_data;
      preds ← forward model adv_data;
      let loss := criterion preds target in
      _ ← backward (fun x => criterion (model x) target) adv_data;
      (* with torch.no_grad(): results do not require gradients *)
      g ← grad_data adv_data;
      a ← read adv_data;
      adv_data ← alloc (fgsm_attack (values a) g alpha) false;
      a ← read adv_data;
      o ← read orig_data;
      perturbations ←
        alloc (tclamp (tsub (values a) (values o)) (- epsilon)%Q epsilon) false;
      p ← read perturbations;
      adv_data ← alloc (tclamp (tadd (values o) (values p)) 0%Q 1%Q) false;
      pgd_loop num_iter' model target criterion alpha epsilon orig_data adv_data
  end.

Definition pgd_attack (model : Tensor -> list Q) (data : nat) (target : nat)
    (criterion : list Q -> nat -> Q) (args : Args) : ST nat :=
  alpha ← lift (getitem (ALPHA args));
  epsilon ← lift (getitem (EPSILON args));
  num_iter ← lift (getitem (NUM_ITER args));
  orig_data ← clone_detach data false;
  adv_data ← clone_detach data true;
  adv_data ←
    pgd_loop (Z.to_nat num_iter) model target criterion alpha epsilon
             orig_data adv_data;
  adv_data ← detach adv_data;
  let perturbed_data := adv_data in
  mret perturbed_data.

(** [fgsm_loss]; [inputs] is the batch, the classifier yields one row of
    logits per image, [labels] one label per image. *)
Definition fgsm_loss (model : Tensor -> list (list Q))
    (criterion : list (list Q) -> list nat -> Q) (inputs : nat)
    (labels : list nat) (defense_args : Args) (return_preds : bool)
    : ST (Q * option (list nat)) :=
  alpha ← lift (getitem (ALPHA defense_args));
  epsilon ← lift (getitem (EPSILON defense_args));
  _ ← requires_grad_ inputs;
  orig_imgs ← clone_detach inputs true;
  adv_imgs ← clone_detach inputs true;
  preds ← forward model orig_imgs;
  let orig_loss := criterion preds labels in
  _ ← backward (fun x => criterion (model x) labels) orig_imgs;
  g ← grad_data orig_imgs;
  o ← read orig_imgs;
  adv_imgs ← alloc (fgsm_attack (values o) g epsilon) (requires_grad o);
  detached ← detach adv_imgs;
  adv_preds ← forward model detached;
  let adv_loss := criterion adv_preds labels in
  let combined_loss := ((1 - alpha) * adv_loss + alpha * orig_loss)%Q in
  if return_preds then mret (combined_loss, Some (argmax <$> preds))
  else mret (combined_loss, None).

End WithTorch.

(** [wp c w post]: run from [w], the computation [c] returns, with a
    result and a final world that satisfy [post]. *)
Definition wp {A : Type} (c : ST A) (w : world)
    (post : A -> world -> Prop) : Prop :=
  match c w with
  | Return (a, w') => post a w'
  | Raise _ => False
  end.

(** Every tensor handed to the classifier so far tracks gradients. *)
Definition forward_passes_track_gradients (w : world) : Prop :=
  Forall (fun l => exists o, heap w !! l = Some o /\ requires_grad o = true)
         (forward_log w).

End Store.

(** ** [sample_reparameterize]

    Tensors of the VAE utility have an arbitrary shape and are given by the
    list of their entries.  [epsilon] is the draw of
    [torch.randn_like(mean)]. *)

Definition any_negative (std : list Q) : bool :=
  existsb (fun s => if Qlt_le_dec s 0 then true else false) std.

Definition sample_reparameterize (mean std epsilon : list Q)
    : outcome (list Q) :=
  if any_negative std then Raise AssertionError
  else
    let z := zip_with Qplus mean (zip_with Qmult std epsilon) in
    Return z.

(** ** Vocabulary of the statements *)

(** Entry [i] of channel plane [c]. *)
Definition entry (t : Tensor) (c i : nat) : option Q :=
  plane ← t !! c; plane !! i.

(** [a] has the shape of [b] and differs from it by at most [eps] at every
    coordinate. *)
Definition linf_within (eps : Q) (a b : Tensor) : Prop :=
  Forall2 (Forall2 (fun r o => (Qabs (r - o) <= eps)%Q)) a b.

(** Every entry lies in the valid input range [0, 1]. *)
Definition in_unit_range (t : Tensor) : Prop :=
  Forall (Forall (fun x => (0 <= x <= 1)%Q)) t.

Section Counts.
Context `{Torch} `{Globals}.
Variables (denorm : Tensor -> Tensor) (model : Tensor -> list Q).
Variables (attack_function : string) (attack_args : Args).

(** The clean prediction agrees with the label: the example is attacked. *)
Definition attacked (ex : Tensor * nat) : bool :=
  bool_decide (argmax (model ex.1) = ex.2).

(** The example is attacked and its perturbed version is still classified
    as the label. *)
Definition robust (ex : Tensor * nat) : bool :=
  attacked ex &&
  match snd (attack_branch denorm model ex.1 ex.2 attack_function attack_args
                           None) with
  | Return (Some perturbed) => bool_decide (argmax (model perturbed) = ex.2)
  | _ => false
  end.

Definition attacked_count (test_loader : list (Tensor * nat)) : nat :=
  length (List.filter attacked test_loader).

Definition robust_count (test_loader : list (Tensor * nat)) : nat :=
  length (List.filter robust test_loader).

(** The selector is one of the two attacks and the dictionary holds the
    keys that attack reads. *)
Definition runnable : Prop :=
  (attack_function = FGSM /\ is_Some (EPSILON attack_args)) \/
  (attack_function = PGD /\ is_Some (ALPHA attack_args) /\
   is_Some (EPSILON attack_args) /\ is_Some (NUM_ITER attack_args)).

End Counts.

(** Two runs agree on everything but the stored images. *)
Definition same_tally (a b : locals) : Prop :=
  correct a = correct b /\
  perturbed_data a = perturbed_data b /\
  length (adv_examples a) = length (adv_examples b).

Definition same_outcome (r1 r2 : outcome locals) : Prop :=
  match r1, r2 with
  | Return a, Return b => same_tally a b
  | Raise e1, Raise e2 => e1 = e2
  | _, _ => False
  end.

Definition accuracy_of (r : outcome (Q * list adv_entry)) : outcome Q :=
  p ← r; mret (fst p).

(** ** Vocabulary of the further statements *)

Section Failures.
Context `{Torch} `{Globals}.
Variables (denorm : Tensor -> Tensor) (model : Tensor -> list Q).
Variables (attack_function : string) (attack_args : Args).

(** The entry a successful attack on the example leaves behind, if the
    example is attacked and the attack succeeds. *)
Definition failure_entry (ex : Tensor * nat) : option adv_entry :=
  if attacked model ex then
    match snd (attack_branch denorm model ex.1 ex.2 attack_function
                             attack_args None) with
    | Return (Some perturbed) =>
        if decide (argmax (model perturbed) = ex.2) then None
        else Some (argmax (model ex.1), argmax (model perturbed),
                   denorm ex.1, denorm perturbed)
    | _ => None
    end
  else None.

(** The entries of all successful attacks, in the order of the loader. *)
Definition failures (test_loader : list (Tensor * nat)) : list adv_entry :=
  omap failure_entry test_loader.

(** The selector is one of the two attacks and a key it reads is absent
    from the dictionary. *)
Definition key_missing : Prop :=
  (attack_function = FGSM /\ EPSILON attack_args = None) \/
  (attack_function <> FGSM /\ attack_function = PGD /\
   (ALPHA attack_args = None \/ EPSILON attack_args = None \/
    NUM_ITER attack_args = None)).

End Failures.

(** ** [train_mlp_pytorch.py]

    A batch of the loaders is the list of its images and the list of
    their class ids, natural numbers (indices counted from the end are
    outside the model).  A float scalar is a rational or NaN ([None]),
    which the mean of an empty tensor yields.  Reshaping a batch that
    holds no element raises [RuntimeError].  The network, the optimiser
    and the loaders come from modules outside these sources and are
    parameters; what is printed and the seeding are left out. *)

Module TrainMLP.

Inductive exn : Set :=
  | IndexError
  | AttributeError
  | RuntimeError.

Inductive attempt (A : Type) : Type :=
  | Done (a : A)
  | Failed (e : exn).
Arguments Done {A} a.
Arguments Failed {A} e.

#[global] Instance attempt_ret : MRet attempt := fun A a => Done a.
#[global] Instance attempt_bind : MBind attempt := fun A B k c =>
  match c with
  | Done a => k a
  | Failed e => Failed e
  end.

Abbreviation scalar := (option Q).
Abbreviation batch := (list (list (list Q)) * list nat)%type.

(** Sum and mean of float scalars; NaN propagates, and the mean of no
    scalar is NaN. *)
Fixpoint total (xs : list scalar) : scalar :=
  match xs with
  | [] => Some 0%Q
  | x :: rest => a ← x; b ← total rest; Some (a + b)%Q
  end.

Definition mean (xs : list scalar) : scalar :=
  match xs with
  | [] => None
  | _ :: _ => s ← total xs; Some (s / inject_Z (Z.of_nat (length xs)))%Q
  end.

(** [torch.mean((argmax(predictions, 1) == argmax(targets, 1)).float())]. *)
Definition accuracy (predictions targets : list (list Q)) : scalar :=
  mean (zip_with (fun p t => Some (if decide (argmax p = argmax t)
                                    then 1%Q else 0%Q))
                 predictions targets).

(** [torch.eye(n)] and the rows [m[labels]]. *)
Definition eye (n : nat) : list (list Q) :=
  (fun i => (fun j => if decide (i = j) then 1%Q else 0%Q) <$> seq 0 n)
    <$> seq 0 n.

Fixpoint index_rows (m : list (list Q)) (labels : list nat)
    : attempt (list (list Q)) :=
  match labels with
  | [] => Done []
  | label :: rest =>
      match m !! label with
      | None => Failed IndexError
      | Some row => rows ← index_rows m rest; Done (row :: rows)
      end
  end.

(** [data.reshape(data.shape[0], -1)]: one row per image.  On a tensor
    without elements the size that [-1] stands for is undetermined, and
    the call raises. *)
Definition reshape (data : list (list (list Q))) : attempt (list (list Q)) :=
  let rows := List.concat (A := Q) <$> data in
  match List.concat rows with
  | [] => Failed RuntimeError
  | _ :: _ => Done rows
  end.

(** The loop of [evaluate_model]: the accuracy of every batch. *)
Fixpoint batch_accuracies (model : list (list Q) -> list (list Q))
    (data_loader : list batch) : attempt (list scalar) :=
  match data_loader with
  | [] => Done []
  | (data, labels) :: rest =>
      data ← reshape data;
      labels ← index_rows (eye 10) labels;
      let acc := accuracy (model data) labels in
      model_accuracy ← batch_accuracies model rest;
      Done (acc :: model_accuracy)
  end.

Definition evaluate_model (model : list (list Q) -> list (list Q))
    (data_loader : list batch) : attempt scalar :=
  model_accuracy ← batch_accuracies model data_loader;
  Done (mean model_accuracy).

(** [a >= b] on float scalars: false when either is NaN. *)
Definition ge (a b : scalar) : bool :=
  match a, b with
  | Some x, Some y => if Qlt_le_dec x y then false else true
  | _, _ => false
  end.

Record loaders : Type := {
  train_set : list batch;
  validation_set : list batch;
  test_set : list batch
}.

Section Train.
Context {Model : Type}.

(** [forward m] is the network [m] in evaluation mode; [sgd_step m b] is
    one step on the batch [b]: forward pass, loss, backward pass and
    [optimizer.step()], giving the updated network and [loss.item()]. *)
Variable forward : Model -> list (list Q) -> list (list Q).
Variable sgd_step : Model -> batch -> Model * scalar.

Fixpoint train_batches (model : Model) (batches : list batch)
    : Model * list scalar :=
  match batches with
  | [] => (model, [])
  | b :: rest =>
      let '(model, loss) := sgd_step model b in
      let '(model, batch_train_loss) := train_batches model rest in
      (model, loss :: batch_train_loss)
  end.

Record train_state : Type := {
  model : Model;
  best_model : option Model;
  best_val_accuracy : scalar;
  val_accuracies : list scalar;
  train_loss : list scalar
}.

Fixpoint epochs_loop (epochs : nat) (cifar10_loader : loaders)
    (st : train_state) : attempt train_state :=
  match epochs with
  | O => Done st
  | S epochs' =>
      let trained := train_batches (model st) (train_set cifar10_loader) in
      curr_val_accuracies ←
        evaluate_model (forward (fst trained)) (validation_set cifar10_loader);
      let better := ge curr_val_accuracies (best_val_accuracy st) in
      epochs_loop epochs' cifar10_loader
        {| model := fst trained;
           best_model := if better then Some (fst trained) else best_model st;
           best_val_accuracy :=
             if better then curr_val_accuracies else best_val_accuracy st;
           val_accuracies := val_accuracies st ++ [curr_val_accuracies];
           train_loss := train_loss st ++ [mean (snd trained)] |}
  end.

(** [train]; [init] is the freshly built network. *)
Definition train (init : Model) (epochs : Z) (cifar10_loader : loaders)
    : attempt (Model * list scalar * scalar * list scalar) :=
  st ← epochs_loop (Z.to_nat epochs) cifar10_loader
         {| model := init; best_model := None; best_val_accuracy := Some 0%Q;
            val_accuracies := []; train_loss := [] |};
  match best_model st with
  | None => Failed AttributeError
  | Some best =>
      test_accuracy ← evaluate_model (forward best) (test_set cifar10_loader);
      Done (best, val_accuracies st, test_accuracy, train_loss st)
  end.

(** The network after [k] epochs. *)
Definition model_after (init : Model) (cifar10_loader : loaders) (k : nat)
    : Model :=
  Nat.iter k (fun m => fst (train_batches m (train_set cifar10_loader))) init.

(** What holds of the state of [train] after [k] epochs: the network is
    the one after [k] epochs, one validation accuracy and one loss were
    logged per epoch, and the best network is the one of the last epoch
    whose validation accuracy no other epoch exceeds. *)
Definition train_invariant (init : Model) (cifar10_loader : loaders)
    (k : nat) (st : train_state) : Prop :=
  model st = model_after init cifar10_loader k /\
  length (val_accuracies st) = k /\
  length (train_loss st) = k /\
  (forall j v,
     val_accuracies st !! j = Some v ->
     evaluate_model (forward (model_after init cifar10_loader (S j)))
                    (validation_set cifar10_loader) = Done v) /\
  match best_model st with
  | None =>
      best_val_accuracy st = Some 0%Q /\
      Forall (fun v => v = None) (val_accuracies st)
  | Some best =>
      exists i b,
        best = model_after init cifar10_loader (S i) /\
        best_val_accuracy st = Some b /\
        val_accuracies st !! i = Some (Some b) /\
        forall j a,
          val_accuracies st !! j = Some (Some a) ->
          (a <= b)%Q /\ ((i < j)%nat -> (a < b)%Q)
  end.

End Train.

(** The rows of [predictions] whose largest logit is at the label. *)
Definition hits (predictions : list (list Q)) (labels : list nat) : nat :=
  length (List.filter (fun pl => bool_decide (argmax pl.1 = pl.2))
                      (zip predictions labels)).

(** The row of [torch.eye(n)] for the class [i]. *)
Definition unit_row (n i : nat) : list Q :=
  (fun j => if decide (i = j) then 1%Q else 0%Q) <$> seq 0 n.

(** Of a batch under a model: the hits, and the fraction of hits. *)
Definition batch_hits (model : list (list Q) -> list (list Q)) (b : batch)
    : nat :=
  hits (model (List.concat (A := Q) <$> b.1)) b.2.

Definition batch_fraction (model : list (list Q) -> list (list Q))
    (b : batch) : Q :=
  Z.of_nat (batch_hits model b) # Pos.of_nat (length b.2).

Definition Qsum (xs : list Q) : Q := foldr Qplus 0%Q xs.

(** The images of a batch hold at least one element. *)
Definition has_entries (data : list (list (list Q))) : Prop :=
  List.concat (List.concat (A := Q) <$> data) <> [].

(** The model yields one row of logits per image, the class ids index
    [torch.eye(10)], and no batch is empty. *)
Definition well_formed (model : list (list Q) -> list (list Q))
    (data_loader : list batch) : Prop :=
  Forall (fun b : batch =>
            length (model (List.concat (A := Q) <$> b.1)) = length b.2 /\
            Forall (fun label => (label < 10)%nat) b.2 /\
            b.2 <> [] /\
            has_entries b.1)
         data_loader.

End TrainMLP.

(** ** Concrete instances for the examples *)

Module Examples.

(** A differentiation operator whose gradients are 1 everywhere. *)
#[export] Instance ones_torch : Torch.
Proof.
  refine {| input_grad := fun _ x => tmap (fun _ => 1%Q) x;
            CrossEntropyLoss := nll_loss |}.
  intros f x. unfold shape, tmap. rewrite <- list_fmap_compose.
  apply list_fmap_ext. intros i plane _. apply length_fmap.
Defined.

#[export] Instance str_globals : Globals := {| FGSM := "fgsm"; PGD := "pgd" |}.

Definition total (t : Tensor) : Q :=
  foldr (fun plane acc => foldr Qplus acc plane) 0%Q t.

(** Two classes: class 1 when the entries sum to more than 1/2. *)
Definition threshold_model (x : Tensor) : list Q := [1 # 2; total x].

Definition pgd_args : Args :=
  {| ALPHA := Some (1 # 10); EPSILON := Some (1 # 10); NUM_ITER := Some 1%Z |}.

Definition fgsm_args : Args :=
  {| ALPHA := None; EPSILON := Some 0%Q; NUM_ITER := None |}.

(** A loader whose first example the classifier gets wrong and whose
    second it gets right. *)
Definition two_examples : list (Tensor * nat) :=
  [([[0%Q]], 1%nat); ([[1%Q]], 1%nat)].

(** One example of class 0, close to the threshold. *)
Definition near_threshold : list (Tensor * nat) := [([[1 # 5]], 0%nat)].

(** Seven images of three channels and of class 0, which the classifier
    gets right and whose denormalised form it puts in class 1; the
    [k]-th is told from the others by its second channel. *)
Definition dim_image (k : Z) : Tensor := [[1 # 5]; [k # 100]; [0%Q]].

Definition seven_failures : list (Tensor * nat) :=
  (fun k => (dim_image k, 0%nat)) <$> [1; 2; 3; 4; 5; 6; 7]%Z.

(** The classifier on a batch of one image, and a loss that sums the
    logits. *)
Definition batch_model (x : Tensor) : list (list Q) := [threshold_model x].
Definition sum_loss (rows : list (list Q)) (labels : list nat) : Q := total rows.

(** A store holding one tensor that does not track gradients. *)
Definition one_tensor : Store.world :=
  {| Store.heap := [{| Store.values := [[1%Q]]; Store.requires_grad := false;
                       Store.grad := None |}];
     Store.forward_log := [] |}.

End Examples.

(** * Properties *)

(** ** Tensor operations *)

Lemma entry_tmap (f : Q -> Q) (t : Tensor) (c i : nat) :
  entry (tmap f t) c i = f <$> entry t c i.
Proof.
  unfold entry, tmap. rewrite list_lookup_fmap.
  destruct (t !! c) as [plane|]; simpl; [apply list_lookup_fmap | reflexivity].
Qed.

Lemma entry_tzip (f : Q -> Q -> Q) (a b : Tensor) (c i : nat) :
  entry (tzip f a b) c i = (x ← entry a c i; y ← entry b c i; Some (f x y)).
Proof.
  unfold entry, tzip. rewrite lookup_zip_with.
  destruct (a !! c) as [pa|]; simpl; [|reflexivity].
  destruct (b !! c) as [pb|]; simpl.
  - apply lookup_zip_with.
  - destruct (pa !! i); reflexivity.
Qed.

Lemma shape_tmap (f : Q -> Q) (t : Tensor) : shape (tmap f t) = shape t.
Proof.
  unfold shape, tmap. rewrite <- list_fmap_compose.
  apply list_fmap_ext. intros i plane _. apply length_fmap.
Qed.

Lemma shape_tzip (f : Q -> Q -> Q) (a b : Tensor) :
  shape a = shape b -> shape (tzip f a b) = shape a.
Proof.
  unfold shape, tzip. revert b.
  induction a as [|pa a IH]; intros [|pb b] Hs; simpl in *; try congruence.
  injection Hs as Hp Hs. f_equal; [|auto].
  rewrite length_zip_with. lia.
Qed.

Lemma shape_lookup (a b : Tensor) (c : nat) (pa pb : list Q) :
  shape a = shape b -> a !! c = Some pa -> b !! c = Some pb ->
  length pa = length pb.
Proof.
  unfold shape. intros Hs Ha Hb.
  assert (Hc : (length <$> a) !! c = (length <$> b) !! c)
    by (rewrite Hs; reflexivity).
  rewrite !list_lookup_fmap, Ha, Hb in Hc. simpl in Hc. congruence.
Qed.

(** Closeness of two tensors, coordinate by coordinate. *)
Lemma linf_within_entries (eps : Q) (a b : Tensor) :
  shape a = shape b ->
  (forall c i x y, entry a c i = Some x -> entry b c i = Some y ->
                   (Qabs (x - y) <= eps)%Q) ->
  linf_within eps a b.
Proof.
  intros Hs He. unfold linf_within.
  apply Forall2_same_length_lookup. split.
  - apply (f_equal length) in Hs. unfold shape in Hs.
    rewrite !length_fmap in Hs. exact Hs.
  - intros c pa pb Ha Hb.
    apply Forall2_same_length_lookup. split.
    + eapply shape_lookup; eassumption.
    + intros i x y Hx Hy. apply (He c i); unfold entry.
      * rewrite Ha. exact Hx.
      * rewrite Hb. exact Hy.
Qed.

Lemma in_unit_range_entry (t : Tensor) (c i : nat) (x : Q) :
  in_unit_range t -> entry t c i = Some x -> (0 <= x <= 1)%Q.
Proof.
  unfold in_unit_range, entry. intros Ht Hx.
  destruct (t !! c) as [plane|] eqn:Hc; simpl in Hx; [|discriminate].
  rewrite Forall_lookup in Ht. specialize (Ht c plane Hc).
  rewrite Forall_lookup in Ht. exact (Ht i x Hx).
Qed.

(** ** Clamping *)

Lemma clamp_between (lo hi x : Q) :
  (lo <= hi)%Q -> (lo <= clamp lo hi x <= hi)%Q.
Proof.
  intros Hle. unfold clamp.
  destruct (Q.max_spec x lo) as [[H1 E1]|[H1 E1]];
  destruct (Q.min_spec (Qmax x lo) hi) as [[H2 E2]|[H2 E2]];
  revert E1 H2 E2; generalize (Qmin (Qmax x lo) hi); generalize (Qmax x lo);
  intros m r E1 H2 E2; lra.
Qed.

(** Clamping to an interval moves a point no further from any point of the
    interval. *)
Lemma clamp_towards (lo hi o y d : Q) :
  (lo <= o <= hi)%Q -> (o - d <= y <= o + d)%Q ->
  (o - d <= clamp lo hi y <= o + d)%Q.
Proof.
  intros Ho Hy. unfold clamp.
  destruct (Q.max_spec y lo) as [[H1 E1]|[H1 E1]];
  destruct (Q.min_spec (Qmax y lo) hi) as [[H2 E2]|[H2 E2]];
  revert E1 H2 E2; generalize (Qmin (Qmax y lo) hi); generalize (Qmax y lo);
  intros m r E1 H2 E2; lra.
Qed.

(** The projection of one PGD iteration, at one coordinate. *)
Lemma projection_bound (o a eps : Q) :
  (0 <= eps)%Q -> (0 <= o <= 1)%Q ->
  (Qabs (clamp 0 1 (o + clamp (- eps) eps (a - o)) - o) <= eps)%Q.
Proof.
  intros Heps Ho. apply Qabs_Qle_condition.
  assert (Hp : (- eps <= clamp (- eps) eps (a - o) <= eps)%Q)
    by (apply clamp_between; lra).
  assert (Hc : (o - eps <= clamp 0 1 (o + clamp (- eps) eps (a - o)) <= o + eps)%Q)
    by (apply clamp_towards; lra).
  split; lra.
Qed.

Lemma entry_same_shape (a b : Tensor) (c i : nat) (x : Q) :
  shape a = shape b -> entry a c i = Some x ->
  exists y, entry b c i = Some y.
Proof.
  unfold entry. intros Hs Hx.
  destruct (a !! c) as [pa|] eqn:Ha; simpl in Hx; [|discriminate].
  assert (Hlen : length a = length b).
  { apply (f_equal length) in Hs. unfold shape in Hs.
    rewrite !length_fmap in Hs. exact Hs. }
  destruct (b !! c) as [pb|] eqn:Hb; simpl.
  - apply lookup_lt_is_Some.
    rewrite <- (shape_lookup a b c pa pb Hs Ha Hb).
    apply lookup_lt_is_Some. eauto.
  - apply lookup_ge_None in Hb. apply lookup_lt_Some in Ha. lia.
Qed.

Lemma sign_cases (g : Q) :
  ((g < 0)%Q -> sign g = (-1)%Q) /\
  ((g == 0)%Q -> sign g = 0%Q) /\
  ((0 < g)%Q -> sign g = 1%Q).
Proof.
  destruct g as [n d]. unfold sign, Qlt, Qeq. simpl.
  repeat split; intros Hg; destruct n; simpl in *; try reflexivity; lia.
Qed.

(** ** The single-step perturber *)

Lemma fgsm_attack_shape (image data_grad : Tensor) (epsilon : Q) :
  shape data_grad = shape image ->
  shape (fgsm_attack image data_grad epsilon) = shape image.
Proof.
  intros Hs. unfold fgsm_attack, tadd, tscale, tsign.
  apply shape_tzip. rewrite !shape_tmap. symmetry. exact Hs.
Qed.

Lemma fgsm_attack_entry (image data_grad : Tensor) (epsilon : Q) (c i : nat) :
  entry (fgsm_attack image data_grad epsilon) c i =
  (x ← entry image c i; g ← entry data_grad c i;
   Some (x + epsilon * sign g)%Q).
Proof.
  unfold fgsm_attack, tadd, tscale, tsign.
  rewrite entry_tzip, !entry_tmap.
  destruct (entry image c i) as [x|]; simpl; [|reflexivity].
  destruct (entry data_grad c i) as [g|]; reflexivity.
Qed.

(** C5.  For an image and a gradient of the same shape, [fgsm_attack]
    returns a tensor of that shape whose entry at every coordinate is
    exactly [x + epsilon * sign g], for [x] the entry of the image and [g]
    that of the gradient there; [sign g] is -1, 0 or +1 as [g] is negative,
    zero or positive.  Nothing clamps the sum to a range. *)
Theorem fgsm_attack_formula (image data_grad : Tensor) (epsilon : Q) :
  shape data_grad = shape image ->
  shape (fgsm_attack image data_grad epsilon) = shape image /\
  (forall c i x, entry image c i = Some x ->
     exists g, entry data_grad c i = Some g /\
       entry (fgsm_attack image data_grad epsilon) c i
         = Some (x + epsilon * sign g)%Q) /\
  (forall g : Q, ((g < 0)%Q -> sign g = (-1)%Q) /\
                 ((g == 0)%Q -> sign g = 0%Q) /\
                 ((0 < g)%Q -> sign g = 1%Q)).
Proof.
  intros Hs. split; [|split].
  - apply fgsm_attack_shape, Hs.
  - intros c i x Hx.
    destruct (entry_same_shape image data_grad c i x (eq_sym Hs) Hx) as [g Hg].
    exists g. split; [exact Hg|].
    rewrite fgsm_attack_entry, Hx. simpl. rewrite Hg. reflexivity.
  - apply sign_cases.
Qed.

Lemma fgsm_attack_formula_witness :
  shape (fgsm_attack [[1%Q; 0%Q]] [[(-2)%Q; 3%Q]] (1 # 4)) = shape [[1%Q; 0%Q]] /\
  fgsm_attack [[1%Q; 0%Q]] [[(-2)%Q; 3%Q]] (1 # 4) = [[3 # 4; 1 # 4]].
Proof.
  split.
  - apply (fgsm_attack_formula [[1%Q; 0%Q]] [[(-2)%Q; 3%Q]] (1 # 4)).
    reflexivity.
  - reflexivity.
Defined.

(** The sum leaves the range [0, 1] where the step carries it out. *)
Example fgsm_attack_unclamped :
  fgsm_attack [[1%Q]] [[2%Q]] (1 # 4) = [[5 # 4]].
Proof. reflexivity. Qed.

(** ** The iterative perturber, on values *)

Section PgdValues.
Context `{Torch}.
Variables (model : Tensor -> list Q) (target : nat).
Variables (criterion : list Q -> nat -> Q) (alpha epsilon : Q).

Lemma pgd_step_shape (orig_data adv_data : Tensor) :
  shape adv_data = shape orig_data ->
  shape (pgd_step model target criterion alpha epsilon orig_data adv_data)
  = shape orig_data.
Proof.
  intros Hs. unfold pgd_step, tclamp, tadd, tsub.
  rewrite shape_tmap. apply shape_tzip.
  rewrite shape_tmap, shape_tzip.
  - rewrite fgsm_attack_shape; [congruence | apply input_grad_shape].
  - rewrite fgsm_attack_shape; [exact Hs | apply input_grad_shape].
Qed.

Lemma pgd_step_within (orig_data adv_data : Tensor) :
  (0 <= epsilon)%Q -> in_unit_range orig_data ->
  shape adv_data = shape orig_data ->
  linf_within epsilon
    (pgd_step model target criterion alpha epsilon orig_data adv_data)
    orig_data.
Proof.
  intros Heps Hrange Hs. apply linf_within_entries.
  - apply pgd_step_shape, Hs.
  - intros c i x o Hx Ho. unfold pgd_step, tclamp, tadd, tsub in Hx.
    rewrite entry_tmap, entry_tzip, entry_tmap, entry_tzip, Ho in Hx.
    simpl in Hx.
    destruct (entry (fgsm_attack adv_data _ alpha) c i) as [a|];
      simpl in Hx; [|discriminate].
    injection Hx as <-.
    apply projection_bound; [exact Heps|].
    eapply in_unit_range_entry; eassumption.
Qed.

Lemma linf_within_refl (t : Tensor) :
  (0 <= epsilon)%Q -> linf_within epsilon t t.
Proof.
  intros Heps. apply linf_within_entries; [reflexivity|].
  intros c i x y Hx Hy. rewrite Hx in Hy. injection Hy as <-.
  apply Qabs_Qle_condition. split; lra.
Qed.

Lemma pgd_iter_shape (n : nat) (data : Tensor) :
  shape (Nat.iter n (pgd_step model target criterion alpha epsilon data) data)
  = shape data.
Proof.
  induction n as [|n IH]; simpl; [reflexivity|].
  apply pgd_step_shape, IH.
Qed.

Lemma pgd_iter_within (n : nat) (data : Tensor) :
  (0 <= epsilon)%Q -> in_unit_range data ->
  linf_within epsilon
    (Nat.iter n (pgd_step model target criterion alpha epsilon data) data)
    data.
Proof.
  intros Heps Hrange. destruct n as [|n]; simpl.
  - apply linf_within_refl, Heps.
  - apply pgd_step_within; [exact Heps | exact Hrange | apply pgd_iter_shape].
Qed.

End PgdValues.

(** C2, amended.  For an input whose entries all lie in the valid range
    [0, 1], any number of iterations, any step size and any
    [epsilon >= 0], [pgd_attack] returns an example of the shape of the
    input that deviates from it by at most [epsilon] at every coordinate. *)
Theorem pgd_attack_within_epsilon `{Torch} (model : Tensor -> list Q)
    (data : Tensor) (target : nat) (criterion : list Q -> nat -> Q)
    (alpha epsilon : Q) (num_iter : Z) :
  (0 <= epsilon)%Q -> in_unit_range data ->
  exists perturbed_data,
    pgd_attack model data target criterion
      {| ALPHA := Some alpha; EPSILON := Some epsilon;
         NUM_ITER := Some num_iter |} = Return perturbed_data /\
    linf_within epsilon perturbed_data data.
Proof.
  intros Heps Hrange. eexists. split; [reflexivity|].
  apply pgd_iter_within; assumption.
Qed.

(** C6.  With [num_iter = 0], [pgd_attack] returns the input itself. *)
Theorem pgd_attack_zero_iterations `{Torch} (model : Tensor -> list Q)
    (data : Tensor) (target : nat) (criterion : list Q -> nat -> Q)
    (alpha epsilon : Q) :
  pgd_attack model data target criterion
    {| ALPHA := Some alpha; EPSILON := Some epsilon; NUM_ITER := Some 0%Z |}
  = Return data.
Proof. reflexivity. Qed.

(** ** The attack evaluator *)

Section Evaluation.
Context `{Torch} `{Globals}.
Variables (denorm : Tensor -> Tensor) (model : Tensor -> list Q).
Variables (attack_function : string) (attack_args : Args).

Lemma attack_branch_unknown (data : Tensor) (target : nat)
    (bound : option Tensor) :
  attack_function <> FGSM -> attack_function <> PGD ->
  attack_branch denorm model data target attack_function attack_args bound
  = ([PrintUnknownAttack attack_function], Return bound).
Proof.
  intros HF HP. unfold attack_branch.
  destruct (decide (attack_function = FGSM)); [contradiction|].
  destruct (decide (attack_function = PGD)); [contradiction|].
  reflexivity.
Qed.

Lemma attack_branch_known (data : Tensor) (target : nat)
    (bound : option Tensor) :
  attack_function = FGSM \/ attack_function = PGD ->
  attack_branch denorm model data target attack_function attack_args bound
  = attack_branch denorm model data target attack_function attack_args None.
Proof.
  intros Hk. unfold attack_branch.
  destruct (decide (attack_function = FGSM)); [reflexivity|].
  destruct (decide (attack_function = PGD)); [reflexivity|].
  destruct Hk; contradiction.
Qed.

Lemma attack_branch_runnable (data : Tensor) (target : nat)
    (bound : option Tensor) :
  runnable attack_function attack_args ->
  exists perturbed,
    attack_branch denorm model data target attack_function attack_args bound
    = ([], Return (Some perturbed)).
Proof.
  unfold runnable, attack_branch.
  intros [[HF [e He]]|[HP [[a Ha] [[e He] [n Hn]]]]].
  - destruct (decide (attack_function = FGSM)); [|contradiction].
    rewrite He. eexists. reflexivity.
  - destruct (decide (attack_function = FGSM)).
    + rewrite He. eexists. reflexivity.
    + destruct (decide (attack_function = PGD)); [|contradiction].
      unfold pgd_attack. rewrite Ha, He, Hn. eexists. reflexivity.
Qed.

Lemma robust_count_cons (ex : Tensor * nat) (rest : list (Tensor * nat)) :
  robust_count denorm model attack_function attack_args (ex :: rest)
  = ((if robust denorm model attack_function attack_args ex then 1 else 0)
     + robust_count denorm model attack_function attack_args rest)%nat.
Proof.
  unfold robust_count. simpl.
  destruct (robust denorm model attack_function attack_args ex); reflexivity.
Qed.

Lemma attacked_count_cons (ex : Tensor * nat) (rest : list (Tensor * nat)) :
  attacked_count model (ex :: rest)
  = ((if attacked model ex then 1 else 0) + attacked_count model rest)%nat.
Proof.
  unfold attacked_count. simpl. destruct (attacked model ex); reflexivity.
Qed.

(** With a known selector the counter grows by the number of robust
    examples. *)
Lemma test_loop_known_correct (test_loader : list (Tensor * nat)) :
  attack_function = FGSM \/ attack_function = PGD ->
  forall st out out' st',
    test_loop denorm model attack_function attack_args test_loader st out
    = (out', Return st') ->
    correct st'
    = (correct st
       + robust_count denorm model attack_function attack_args test_loader)%nat.
Proof.
  intros Hk.
  induction test_loader as [|[data target] rest IH]; intros st out out' st' Hrun.
  - simpl in Hrun. injection Hrun as <- <-. unfold robust_count. simpl. lia.
  - rewrite robust_count_cons. unfold robust, attacked.
    cbn [test_loop fst snd] in *.
    rewrite (attack_branch_known data target (perturbed_data st) Hk) in Hrun.
    destruct (decide (argmax (model data) ≠ target)) as [Hne|Heq].
    { rewrite bool_decide_eq_false_2 by exact Hne. simpl.
      apply IH in Hrun. exact Hrun. }
    apply dec_stable in Heq.
    rewrite (bool_decide_eq_true_2 _ Heq). simpl andb.
    destruct (snd (attack_branch denorm model data target attack_function
                                 attack_args None)) as [[perturbed|]|e];
      try discriminate.
    destruct (decide (argmax (model perturbed) = target)) as [Hr|Hr].
    { rewrite (bool_decide_eq_true_2 _ Hr). apply IH in Hrun.
      simpl in Hrun. lia. }
    rewrite (bool_decide_eq_false_2 _ Hr).
    destruct (decide (length (adv_examples st) < 5)%nat);
      apply IH in Hrun; simpl in Hrun; lia.
Qed.

(** With an unknown selector a run that returns has attacked nothing. *)
Lemma test_loop_unknown_return (test_loader : list (Tensor * nat)) :
  attack_function <> FGSM -> attack_function <> PGD ->
  forall st out out' st',
    perturbed_data st = None ->
    test_loop denorm model attack_function attack_args test_loader st out
    = (out', Return st') ->
    st' = st /\ out' = out /\
    robust_count denorm model attack_function attack_args test_loader = 0%nat /\
    attacked_count model test_loader = 0%nat.
Proof.
  intros HF HP.
  induction test_loader as [|[data target] rest IH];
    intros st out out' st' Hnone Hrun.
  - simpl in Hrun. injection Hrun as <- <-. repeat split; reflexivity.
  - rewrite robust_count_cons, attacked_count_cons. unfold robust, attacked.
    cbn [test_loop fst snd] in *.
    rewrite (attack_branch_unknown data target _ HF HP) in Hrun.
    destruct (decide (argmax (model data) ≠ target)) as [Hne|Heq].
    + rewrite bool_decide_eq_false_2 by exact Hne. simpl.
      exact (IH st out out' st' Hnone Hrun).
    + rewrite Hnone in Hrun. simpl in Hrun. discriminate.
Qed.

(** With a known selector and its keys present the loop returns, and
    prints nothing. *)
Lemma test_loop_runnable (test_loader : list (Tensor * nat)) :
  runnable attack_function attack_args ->
  forall st out, exists st',
    test_loop denorm model attack_function attack_args test_loader st out
    = (out, Return st').
Proof.
  intros Hrun.
  induction test_loader as [|[data target] rest IH]; intros st out.
  - eexists. reflexivity.
  - cbn [test_loop].
    destruct (decide (argmax (model data) ≠ target)); [apply IH|].
    destruct (attack_branch_runnable data target (perturbed_data st) Hrun)
      as [perturbed ->].
    cbn [fst snd]. rewrite app_nil_r.
    destruct (decide (argmax (model perturbed) = target)); [apply IH|].
    destruct (decide (length (adv_examples st) < 5)%nat); apply IH.
Qed.

Lemma runnable_known :
  runnable attack_function attack_args ->
  attack_function = FGSM \/ attack_function = PGD.
Proof. unfold runnable. intros [[? _]|[? _]]; auto. Qed.

End Evaluation.

Section EvaluationRuns.
Context `{Torch} `{Globals}.
Variables (denorm : Tensor -> Tensor) (model : Tensor -> list Q).
Variables (attack_function : string) (attack_args : Args).

(** With an unknown selector the first attacked example ends the run: the
    selector is printed, and the read of [perturbed_data], which no
    iteration has assigned, raises. *)
Lemma test_loop_unknown_raises (test_loader : list (Tensor * nat)) :
  attack_function <> FGSM -> attack_function <> PGD ->
  (exists ex, ex ∈ test_loader /\ argmax (model ex.1) = ex.2) ->
  forall st out,
    perturbed_data st = None ->
    test_loop denorm model attack_function attack_args test_loader st out
    = (out ++ [PrintUnknownAttack attack_function], Raise UnboundLocalError).
Proof.
  intros HF HP.
  induction test_loader as [|[data target] rest IH];
    intros [ex [Hin Hex]] st out Hnone.
  - inversion Hin.
  - cbn [test_loop].
    rewrite (attack_branch_unknown denorm model attack_function attack_args
               data target _ HF HP).
    destruct (decide (argmax (model data) ≠ target)) as [Hne|Heq].
    + apply IH; [|exact Hnone].
      apply elem_of_cons in Hin as [->|Hin]; [contradiction|].
      exists ex. split; assumption.
    + rewrite Hnone. reflexivity.
Qed.

Lemma test_attack_with_accuracy (test_loader : list (Tensor * nat))
    (out : list event) (final_acc : Q) (advs : list adv_entry) :
  test_attack_with denorm model test_loader attack_function attack_args
  = (out, Return (final_acc, advs)) ->
  test_loader <> [] /\
  final_acc
  = Z.of_nat (robust_count denorm model attack_function attack_args test_loader)
    # Pos.of_nat (length test_loader).
Proof.
  unfold test_attack_with.
  destruct (test_loop denorm model attack_function attack_args test_loader
              {| correct := 0; adv_examples := []; perturbed_data := None |} [])
    as [out0 [st|e]] eqn:Hloop; cbn [fst snd]; [|discriminate].
  destruct (decide (length test_loader = 0)%nat) as [Hz|Hnz]; [discriminate|].
  intros Hret. injection Hret as _ <- _. split.
  - intros ->. apply Hnz. reflexivity.
  - f_equal. f_equal.
    destruct (decide (attack_function = FGSM)) as [HF|HF].
    { apply (test_loop_known_correct denorm model attack_function attack_args
               test_loader (or_introl HF)) in Hloop. exact Hloop. }
    destruct (decide (attack_function = PGD)) as [HP|HP].
    { apply (test_loop_known_correct denorm model attack_function attack_args
               test_loader (or_intror HP)) in Hloop. exact Hloop. }
    apply (test_loop_unknown_return denorm model attack_function attack_args
             test_loader HF HP) in Hloop as (-> & _ & -> & _); reflexivity.
Qed.

Lemma test_attack_with_returns (test_loader : list (Tensor * nat)) :
  runnable attack_function attack_args -> test_loader <> [] ->
  exists advs,
    test_attack_with denorm model test_loader attack_function attack_args
    = ([PrintSummary attack_function attack_args
          (robust_count denorm model attack_function attack_args test_loader)
          (length test_loader)],
       Return (Z.of_nat (robust_count denorm model attack_function attack_args
                                      test_loader)
               # Pos.of_nat (length test_loader), advs)).
Proof.
  intros Hrun Hne. unfold test_attack_with.
  destruct (test_loop_runnable denorm model attack_function attack_args
              test_loader Hrun
              {| correct := 0; adv_examples := []; perturbed_data := None |} [])
    as [st Hloop].
  rewrite Hloop. cbn [fst snd].
  destruct (decide (length test_loader = 0)%nat) as [Hz|Hnz].
  { destruct test_loader; [contradiction | discriminate]. }
  apply (test_loop_known_correct denorm model attack_function attack_args
           test_loader (runnable_known _ _ Hrun)) in Hloop.
  simpl in Hloop. rewrite Hloop. exists (adv_examples st). reflexivity.
Qed.

End EvaluationRuns.

(** C1, amended.  The accuracy that [test_attack] returns is the robust
    count divided by the number of examples of the loader,
    [len(test_loader)]: an example whose clean prediction disagrees with its
    label adds nothing to the numerator and still counts in the denominator.
    A run with the FGSM or the PGD selector, the keys of the attack present
    and a loader that is not empty does return, and prints that quotient. *)
Theorem test_attack_accuracy `{Torch} `{Globals} (model : Tensor -> list Q)
    (test_loader : list (Tensor * nat)) (attack_function : string)
    (attack_args : Args) :
  let denorm := fun batch => denormalize batch default_mean default_std in
  let robust_total :=
    robust_count denorm model attack_function attack_args test_loader in
  (forall out final_acc advs,
     test_attack model test_loader attack_function attack_args
     = (out, Return (final_acc, advs)) ->
     test_loader <> [] /\
     final_acc = Z.of_nat robust_total # Pos.of_nat (length test_loader)) /\
  (runnable attack_function attack_args -> test_loader <> [] ->
   exists advs,
     test_attack model test_loader attack_function attack_args
     = ([PrintSummary attack_function attack_args robust_total
           (length test_loader)],
        Return (Z.of_nat robust_total # Pos.of_nat (length test_loader), advs))).
Proof.
  intros denorm robust_total. split.
  - intros out final_acc advs Hret.
    exact (test_attack_with_accuracy denorm model attack_function attack_args
             test_loader out final_acc advs Hret).
  - intros Hrun Hne.
    exact (test_attack_with_returns denorm model attack_function attack_args
             test_loader Hrun Hne).
Qed.

(** C3.  With a selector that is neither FGSM nor PGD, a loader holding an
    example that the classifier gets right makes [test_attack] print the
    selector once and raise [UnboundLocalError]: the example is not
    skipped and the run does not complete. *)
Theorem test_attack_unknown_selector_raises `{Torch} `{Globals}
    (model : Tensor -> list Q) (test_loader : list (Tensor * nat))
    (attack_function : string) (attack_args : Args) :
  attack_function <> FGSM -> attack_function <> PGD ->
  (exists ex, ex ∈ test_loader /\ argmax (model ex.1) = ex.2) ->
  test_attack model test_loader attack_function attack_args
  = ([PrintUnknownAttack attack_function], Raise UnboundLocalError).
Proof.
  intros HF HP Hex. unfold test_attack, test_attack_with.
  rewrite (test_loop_unknown_raises _ model attack_function attack_args
             test_loader HF HP Hex); reflexivity.
Qed.

(** ** The recorded failures *)

Section Recorded.
Context `{Torch} `{Globals}.
Variables (denorm : Tensor -> Tensor) (model : Tensor -> list Q).
Variables (attack_function : string) (attack_args : Args).

(** The state after a prefix of the loader is the state the run on the
    whole loader passes through. *)
Lemma test_loop_app (seen rest : list (Tensor * nat)) :
  forall st out,
    test_loop denorm model attack_function attack_args (seen ++ rest) st out
    = match test_loop denorm model attack_function attack_args seen st out with
      | (out1, Return st1) =>
          test_loop denorm model attack_function attack_args rest st1 out1
      | (out1, Raise e) => (out1, Raise e)
      end.
Proof.
  induction seen as [|[data target] seen IH]; intros st out.
  - reflexivity.
  - cbn [app test_loop].
    destruct (decide (argmax (model data) ≠ target)); [apply IH|].
    destruct (snd (attack_branch denorm model data target attack_function
                                 attack_args (perturbed_data st)))
      as [[perturbed|]|e]; try reflexivity.
    destruct (decide (argmax (model perturbed) = target)); [apply IH|].
    destruct (decide (length (adv_examples st) < 5)%nat); apply IH.
Qed.

(** Away from the FGSM branch nothing that is counted reads the
    denormalisation. *)
Lemma attack_branch_denorm (denorm' : Tensor -> Tensor) (data : Tensor)
    (target : nat) (bound : option Tensor) :
  attack_function <> FGSM ->
  attack_branch denorm model data target attack_function attack_args bound
  = attack_branch denorm' model data target attack_function attack_args bound.
Proof.
  intros HF. unfold attack_branch.
  destruct (decide (attack_function = FGSM)); [contradiction|reflexivity].
Qed.

Lemma test_loop_denorm (denorm' : Tensor -> Tensor)
    (test_loader : list (Tensor * nat)) :
  attack_function <> FGSM ->
  forall st1 st2 out,
    same_tally st1 st2 ->
    fst (test_loop denorm model attack_function attack_args test_loader st1 out)
    = fst (test_loop denorm' model attack_function attack_args test_loader
                     st2 out) /\
    same_outcome
      (snd (test_loop denorm model attack_function attack_args test_loader
                      st1 out))
      (snd (test_loop denorm' model attack_function attack_args test_loader
                      st2 out)).
Proof.
  intros HF.
  induction test_loader as [|[data target] rest IH];
    intros st1 st2 out (Hc & Hp & Hl).
  - simpl. repeat split; assumption.
  - cbn [test_loop].
    destruct (decide (argmax (model data) ≠ target)).
    { apply IH. repeat split; assumption. }
    rewrite <- (attack_branch_denorm denorm' data target _ HF), <- Hp.
    destruct (attack_branch denorm model data target attack_function
                            attack_args (perturbed_data st1))
      as [printed [[perturbed|]|e]]; cbn [fst snd];
      try (split; reflexivity).
    destruct (decide (argmax (model perturbed) = target)).
    { apply IH. repeat split; cbn; congruence. }
    rewrite <- Hl.
    destruct (decide (length (adv_examples st1) < 5)%nat);
      apply IH; repeat split; cbn; try congruence.
    rewrite !length_app. simpl. lia.
Qed.

Lemma test_attack_with_denorm (denorm' : Tensor -> Tensor)
    (test_loader : list (Tensor * nat)) :
  attack_function <> FGSM ->
  fst (test_attack_with denorm model test_loader attack_function attack_args)
  = fst (test_attack_with denorm' model test_loader attack_function
                          attack_args) /\
  accuracy_of
    (snd (test_attack_with denorm model test_loader attack_function
                           attack_args))
  = accuracy_of
      (snd (test_attack_with denorm' model test_loader attack_function
                             attack_args)).
Proof.
  intros HF. unfold test_attack_with.
  destruct (test_loop_denorm denorm' test_loader HF
              {| correct := 0; adv_examples := []; perturbed_data := None |}
              {| correct := 0; adv_examples := []; perturbed_data := None |} [])
    as [Hout Hres]; [repeat split|].
  destruct (test_loop denorm model attack_function attack_args test_loader
              _ []) as [out1 [st1|e1]];
  destruct (test_loop denorm' model attack_function attack_args test_loader
              _ []) as [out2 [st2|e2]];
    cbn [fst snd] in *; try contradiction.
  - destruct Hres as (Hc & _ & _).
    destruct (decide (length test_loader = 0)%nat); cbn [fst snd].
    + split; [exact Hout|reflexivity].
    + rewrite Hout, Hc. split; reflexivity.
  - simpl in Hres. subst. split; reflexivity.
Qed.

End Recorded.

(** C4, amended.  With any selector other than FGSM the denormalisation
    does not reach what is counted: for two choices of its mean and std,
    the perturbed example bound in every iteration, what is printed and the
    accuracy are the same.  With the FGSM selector the perturbed example is
    [fgsm_attack] applied to the denormalised input, which is then
    classified. *)
Theorem denormalize_reaches_only_fgsm `{Torch} `{Globals}
    (model : Tensor -> list Q) (test_loader : list (Tensor * nat))
    (attack_function : string) (attack_args : Args)
    (mean1 std1 mean2 std2 : list Q) :
  let denorm1 := fun batch => denormalize batch mean1 std1 in
  let denorm2 := fun batch => denormalize batch mean2 std2 in
  (attack_function <> FGSM ->
   (forall data target bound,
      attack_branch denorm1 model data target attack_function attack_args bound
      = attack_branch denorm2 model data target attack_function attack_args
                      bound) /\
   fst (test_attack_with denorm1 model test_loader attack_function attack_args)
   = fst (test_attack_with denorm2 model test_loader attack_function
                           attack_args) /\
   accuracy_of
     (snd (test_attack_with denorm1 model test_loader attack_function
                            attack_args))
   = accuracy_of
       (snd (test_attack_with denorm2 model test_loader attack_function
                              attack_args))) /\
  (attack_function = FGSM ->
   forall data target bound epsilon,
     EPSILON attack_args = Some epsilon ->
     attack_branch denorm1 model data target attack_function attack_args bound
     = ([], Return (Some (fgsm_attack
                            (denormalize data mean1 std1)
                            (input_grad (fun x => nll_loss (model x) target)
                                        data)
                            epsilon)))).
Proof.
  intros denorm1 denorm2. split.
  - intros HF. split.
    + intros data target bound. apply attack_branch_denorm, HF.
    + apply test_attack_with_denorm, HF.
  - intros HF data target bound epsilon He. unfold attack_branch.
    destruct (decide (attack_function = FGSM)); [|contradiction].
    rewrite He. reflexivity.
Qed.

(** ** The tensor store *)

Section StoreRules.
Import Store.

Lemma wp_elim {A : Type} (c : ST A) (w : world) (post : A -> world -> Prop) :
  wp c w post -> exists a w', c w = Return (a, w') /\ post a w'.
Proof.
  unfold wp. destruct (c w) as [[a w']|e]; [eauto | contradiction].
Qed.

Lemma wp_mono {A : Type} (c : ST A) (w : world) (post post' : A -> world -> Prop) :
  (forall a w', post a w' -> post' a w') -> wp c w post -> wp c w post'.
Proof.
  unfold wp. intros Himp. destruct (c w) as [[a w']|e]; auto.
Qed.

Lemma wp_bind {A B : Type} (c : ST A) (k : A -> ST B) (w : world)
    (post : B -> world -> Prop) :
  wp c w (fun a w' => wp (k a) w' post) -> wp (c ≫= k) w post.
Proof.
  unfold wp, mbind, ST_bind. destruct (c w) as [[a w']|e]; auto.
Qed.

Lemma wp_ret {A : Type} (a : A) (w : world) (post : A -> world -> Prop) :
  post a w -> wp (mret a) w post.
Proof. unfold wp, mret, ST_ret. auto. Qed.

Lemma wp_lift {A : Type} (a : A) (w : world) (post : A -> world -> Prop) :
  post a w -> wp (lift (Return a)) w post.
Proof. unfold wp, lift. auto. Qed.

Lemma wp_read (l : nat) (o : tensor_obj) (w : world)
    (post : tensor_obj -> world -> Prop) :
  heap w !! l = Some o -> post o w -> wp (read l) w post.
Proof. unfold wp, read. intros ->. auto. Qed.

Lemma wp_write (l : nat) (o : tensor_obj) (w : world)
    (post : unit -> world -> Prop) :
  post tt {| heap := <[l := o]> (heap w); forward_log := forward_log w |} ->
  wp (write l o) w post.
Proof. unfold wp, write. auto. Qed.

Lemma wp_alloc (v : Tensor) (rg : bool) (w : world)
    (post : nat -> world -> Prop) :
  post (length (heap w))
       {| heap := heap w ++ [{| values := v; requires_grad := rg; grad := None |}];
          forward_log := forward_log w |} ->
  wp (alloc v rg) w post.
Proof. unfold wp, alloc. auto. Qed.

Lemma wp_forward {O : Type} (model : Tensor -> O) (l : nat) (o : tensor_obj)
    (w : world) (post : O -> world -> Prop) :
  heap w !! l = Some o ->
  post (model (values o))
       {| heap := heap w; forward_log := forward_log w ++ [l] |} ->
  wp (forward model l) w post.
Proof. unfold wp, forward. intros ->. auto. Qed.

Lemma wp_requires_grad_ (l : nat) (o : tensor_obj) (w : world)
    (post : unit -> world -> Prop) :
  heap w !! l = Some o ->
  post tt {| heap := <[l := {| values := values o; requires_grad := true;
                               grad := grad o |}]> (heap w);
             forward_log := forward_log w |} ->
  wp (requires_grad_ l) w post.
Proof.
  intros Hl Hpost. unfold requires_grad_.
  apply wp_bind, (wp_read l o); [exact Hl|]. apply wp_write, Hpost.
Qed.

Lemma wp_backward `{Torch} (f : Tensor -> Q) (l : nat) (o : tensor_obj)
    (w : world) (post : unit -> world -> Prop) :
  heap w !! l = Some o -> requires_grad o = true ->
  post tt {| heap := <[l := {| values := values o; requires_grad := true;
                               grad := Some (accumulate (grad o)
                                               (input_grad f (values o))) |}]>
                       (heap w);
             forward_log := forward_log w |} ->
  wp (backward f l) w post.
Proof.
  intros Hl Hrg Hpost. unfold backward.
  apply wp_bind, (wp_read l o); [exact Hl|]. rewrite Hrg.
  apply wp_write, Hpost.
Qed.

Lemma wp_grad_data (l : nat) (o : tensor_obj) (g : Tensor) (w : world)
    (post : Tensor -> world -> Prop) :
  heap w !! l = Some o -> grad o = Some g -> post g w ->
  wp (grad_data l) w post.
Proof.
  intros Hl Hg Hpost. unfold grad_data.
  apply wp_bind, (wp_read l o); [exact Hl|]. rewrite Hg.
  apply wp_lift, Hpost.
Qed.

Lemma wp_clone_detach (l : nat) (rg : bool) (o : tensor_obj) (w : world)
    (post : nat -> world -> Prop) :
  heap w !! l = Some o ->
  post (length (heap w))
       {| heap := heap w ++ [{| values := values o; requires_grad := rg;
                                grad := None |}];
          forward_log := forward_log w |} ->
  wp (clone_detach l rg) w post.
Proof.
  intros Hl Hpost. unfold clone_detach.
  apply wp_bind, (wp_read l o); [exact Hl|]. apply wp_alloc, Hpost.
Qed.

Lemma wp_detach (l : nat) (o : tensor_obj) (w : world)
    (post : nat -> world -> Prop) :
  heap w !! l = Some o ->
  post (length (heap w))
       {| heap := heap w ++ [{| values := values o; requires_grad := false;
                                grad := None |}];
          forward_log := forward_log w |} ->
  wp (detach l) w post.
Proof.
  intros Hl Hpost. unfold detach.
  apply wp_bind, (wp_read l o); [exact Hl|]. apply wp_alloc, Hpost.
Qed.

End StoreRules.

Ltac heap_length :=
  repeat first [rewrite length_app | rewrite length_insert]; simpl; lia.

Ltac heap_lookup :=
  rewrite ?length_insert;
  repeat first
    [ rewrite lookup_app_l by heap_length
    | rewrite list_lookup_insert_eq by heap_length
    | rewrite list_lookup_insert_ne by first [congruence | heap_length]
    | rewrite list_lookup_middle by heap_length ];
  try eassumption; try reflexivity.

Section StoreRuns.
Context `{Torch}.
Import Store.

Variables (model : Tensor -> list Q) (target : nat).
Variables (criterion : list Q -> nat -> Q) (alpha epsilon : Q).

Lemma wp_pgd_loop (n : nat) :
  forall (w : world) (orig_data adv_data : nat) (oo oa : tensor_obj),
    heap w !! orig_data = Some oo -> heap w !! adv_data = Some oa ->
    grad oa = None -> orig_data <> adv_data ->
    wp (Store.pgd_loop n model target criterion alpha epsilon
                       orig_data adv_data) w
       (fun l w' =>
          (length (heap w) <= length (heap w'))%nat /\
          (forall k, k <> adv_data -> (k < length (heap w))%nat ->
                     heap w' !! k = heap w !! k) /\
          (l = adv_data \/ (length (heap w) <= l)%nat) /\
          exists o', heap w' !! l = Some o' /\
            values o'
            = Nat.iter n (pgd_step model target criterion alpha epsilon
                                   (values oo)) (values oa)).
Proof.
  induction n as [|n IH]; intros w orig_data adv_data oo oa Ho Ha Hg Hne.
  - apply wp_ret. repeat split; auto. exists oa. split; [exact Ha|reflexivity].
  - assert (Hlt : (adv_data < length (heap w))%nat)
      by (eapply lookup_lt_Some; eassumption).
    assert (Hlo : (orig_data < length (heap w))%nat)
      by (eapply lookup_lt_Some; eassumption).
    cbn [Store.pgd_loop].
    apply wp_bind, (wp_requires_grad_ adv_data oa); [exact Ha|].
    eapply wp_bind, wp_forward; [cbn [heap]; heap_lookup|].
    eapply wp_bind, wp_backward; [cbn [heap]; heap_lookup|reflexivity|].
    eapply wp_bind, wp_grad_data; [cbn [heap]; heap_lookup|reflexivity|].
    eapply wp_bind, wp_read; [cbn [heap]; heap_lookup|].
    apply wp_bind, wp_alloc.
    eapply wp_bind, wp_read; [cbn [heap]; heap_lookup|].
    eapply wp_bind, (wp_read orig_data oo); [cbn [heap]; heap_lookup|].
    apply wp_bind, wp_alloc.
    eapply wp_bind, wp_read; [cbn [heap]; heap_lookup|].
    apply wp_bind, wp_alloc.
    cbn [heap forward_log values requires_grad grad].
    rewrite Hg. cbn [accumulate].
    eapply wp_mono; cycle 1.
    { eapply (IH _ orig_data _ oo); cbn [heap].
      - heap_lookup.
      - heap_lookup.
      - reflexivity.
      - revert Hlo. heap_length. }
    cbn [heap values]. intros l w' (Hlen & Hframe & Hl & o' & Ho' & Hv).
    split; [|split; [|split]].
    + revert Hlen. heap_length.
    + intros k Hk Hkl. rewrite Hframe.
      * heap_lookup.
      * revert Hkl. heap_length.
      * revert Hkl. heap_length.
    + right. destruct Hl as [->|Hl]; [heap_length | revert Hl; heap_length].
    + exists o'. split; [exact Ho'|].
      rewrite Nat.iter_succ_r. exact Hv.
Qed.

Lemma wp_pgd_attack (data : nat) (num_iter : Z) (w : world) (o : tensor_obj) :
  heap w !! data = Some o ->
  wp (Store.pgd_attack model data target criterion
        {| ALPHA := Some alpha; EPSILON := Some epsilon;
           NUM_ITER := Some num_iter |}) w
     (fun l w' =>
        (forall k, (k < length (heap w))%nat -> heap w' !! k = heap w !! k) /\
        (length (heap w) <= l)%nat /\
        exists o', heap w' !! l = Some o' /\
          requires_grad o' = false /\
          values o'
          = Nat.iter (Z.to_nat num_iter)
                     (pgd_step model target criterion alpha epsilon (values o))
                     (values o)).
Proof.
  intros Hd.
  assert (Hlt : (data < length (heap w))%nat)
    by (eapply lookup_lt_Some; eassumption).
  unfold Store.pgd_attack. cbn [getitem ALPHA EPSILON NUM_ITER].
  do 3 apply wp_bind, wp_lift.
  eapply wp_bind, wp_clone_detach; [exact Hd|].
  eapply wp_bind, wp_clone_detach; [cbn [heap]; heap_lookup|].
  apply wp_bind. eapply wp_mono; cycle 1.
  { eapply (wp_pgd_loop _ _ (length (heap w))); cbn [heap].
    - heap_lookup.
    - heap_lookup.
    - reflexivity.
    - heap_length. }
  cbn [heap values]. intros l w' (Hlen & Hframe & Hl & o' & Ho' & Hv).
  eapply wp_bind, wp_detach; [exact Ho'|].
  apply wp_ret. cbn [heap]. split; [|split].
  - intros k Hk. rewrite lookup_app_l by (revert Hlen; heap_length).
    rewrite Hframe by heap_length. heap_lookup.
  - revert Hlen. heap_length.
  - eexists. split; [heap_lookup|]. split; [reflexivity|exact Hv].
Qed.

End StoreRuns.

(** C10.  Run on a store, [pgd_attack] returns, and no tensor object that
    existed before the call is changed by it: the object of the input in
    particular keeps its entries, its flag and its gradient.  The result is
    a new tensor that does not require gradients and holds the value that
    [pgd_attack] computes from the entries of the input. *)
Theorem pgd_attack_preserves_input `{Torch} (model : Tensor -> list Q)
    (data target : nat) (criterion : list Q -> nat -> Q) (alpha epsilon : Q)
    (num_iter : Z) (w : Store.world) (o : Store.tensor_obj) :
  let args := {| ALPHA := Some alpha; EPSILON := Some epsilon;
                 NUM_ITER := Some num_iter |} in
  Store.heap w !! data = Some o ->
  exists l w',
    Store.pgd_attack model data target criterion args w = Return (l, w') /\
    (forall k, (k < length (Store.heap w))%nat ->
               Store.heap w' !! k = Store.heap w !! k) /\
    Store.heap w' !! data = Some o /\
    (length (Store.heap w) <= l)%nat /\
    exists o', Store.heap w' !! l = Some o' /\
      Store.requires_grad o' = false /\
      Return (Store.values o')
      = pgd_attack model (Store.values o) target criterion args.
Proof.
  intros args Hd.
  destruct (wp_elim _ _ _
              (wp_pgd_attack model target criterion alpha epsilon data
                             num_iter w o Hd))
    as (l & w' & Hrun & Hframe & Hl & o' & Ho' & Hrg & Hv).
  exists l, w'. split; [exact Hrun|]. split; [exact Hframe|].
  split; [|split; [exact Hl|]].
  - rewrite Hframe; [exact Hd|]. eapply lookup_lt_Some. exact Hd.
  - exists o'. split; [exact Ho'|]. split; [exact Hrg|].
    rewrite Hv. reflexivity.
Qed.

(** ** The mixed-loss hook *)

Section MixedLoss.
Context `{Torch}.
Import Store.

Variables (model : Tensor -> list (list Q)).
Variables (criterion : list (list Q) -> list nat -> Q).

Lemma wp_fgsm_loss (inputs : nat) (labels : list nat) (alpha epsilon : Q)
    (num_iter : option Z) (return_preds : bool) (w : world) (o : tensor_obj) :
  let x := values o in
  let orig_loss := criterion (model x) labels in
  let data_grad := input_grad (fun x => criterion (model x) labels) x in
  let adv := fgsm_attack x data_grad epsilon in
  let adv_loss := criterion (model adv) labels in
  let l := length (heap w) in
  heap w !! inputs = Some o ->
  wp (Store.fgsm_loss model criterion inputs labels
        {| ALPHA := Some alpha; EPSILON := Some epsilon; NUM_ITER := num_iter |}
        return_preds) w
     (fun r w' =>
        r = (((1 - alpha) * adv_loss + alpha * orig_loss)%Q,
             if return_preds then Some (argmax <$> model x) else None) /\
        forward_log w' = forward_log w ++ [l; (l + 3)%nat] /\
        heap w' !! l
        = Some {| values := x; requires_grad := true;
                  grad := Some data_grad |} /\
        heap w' !! (l + 1)%nat
        = Some {| values := x; requires_grad := true; grad := None |} /\
        heap w' !! (l + 3)%nat
        = Some {| values := adv; requires_grad := false; grad := None |}).
Proof.
  intros x orig_loss data_grad adv adv_loss l Hin.
  assert (Hlt : (inputs < length (heap w))%nat)
    by (eapply lookup_lt_Some; eassumption).
  unfold Store.fgsm_loss. cbn [getitem ALPHA EPSILON].
  do 2 apply wp_bind, wp_lift.
  eapply wp_bind, wp_requires_grad_; [exact Hin|].
  eapply wp_bind, wp_clone_detach; [cbn [heap]; heap_lookup|].
  eapply wp_bind, wp_clone_detach; [cbn [heap]; heap_lookup|].
  eapply wp_bind, wp_forward; [cbn [heap]; heap_lookup|].
  eapply wp_bind, wp_backward; [cbn [heap]; heap_lookup|reflexivity|].
  eapply wp_bind, wp_grad_data; [cbn [heap]; heap_lookup|reflexivity|].
  eapply wp_bind, wp_read; [cbn [heap]; heap_lookup|].
  apply wp_bind, wp_alloc.
  eapply wp_bind, wp_detach; [cbn [heap]; heap_lookup|].
  eapply wp_bind, wp_forward; [cbn [heap]; heap_lookup|].
  cbn [heap forward_log values requires_grad grad accumulate].
  fold x. fold data_grad. fold adv. fold orig_loss. fold adv_loss.
  subst l.
  destruct return_preds; apply wp_ret; cbn [heap forward_log];
    (split; [reflexivity|]);
    (split; [rewrite <- app_assoc; cbn [app]; f_equal;
             apply (f_equal2 cons); [|apply (f_equal2 cons); [|reflexivity]];
             heap_length|]);
    repeat split; heap_lookup.
Qed.

End MixedLoss.

(** C7, amended.  [fgsm_loss] returns
    [(1 - alpha) * adversarial_loss + alpha * clean_loss].  The clean loss
    comes from a forward pass on a gradient-tracking copy of the input; the
    adversarial loss from a second forward pass, on the detached
    single-step perturbation of that same copy, a tensor that does not
    track gradients.  A second gradient-tracking copy of the input is made
    and handed to neither pass.  With [alpha = 1] the result equals the
    clean loss, with [alpha = 0] the adversarial loss. *)
Theorem fgsm_loss_combination `{Torch} (model : Tensor -> list (list Q))
    (criterion : list (list Q) -> list nat -> Q) (inputs : nat)
    (labels : list nat) (alpha epsilon : Q) (num_iter : option Z)
    (return_preds : bool) (w : Store.world) (o : Store.tensor_obj) :
  let x := Store.values o in
  let orig_loss := criterion (model x) labels in
  let data_grad := input_grad (fun x => criterion (model x) labels) x in
  let adv := fgsm_attack x data_grad epsilon in
  let adv_loss := criterion (model adv) labels in
  let l := length (Store.heap w) in
  Store.heap w !! inputs = Some o ->
  exists loss preds w',
    Store.fgsm_loss model criterion inputs labels
      {| ALPHA := Some alpha; EPSILON := Some epsilon; NUM_ITER := num_iter |}
      return_preds w
    = Return ((loss, preds), w') /\
    loss = ((1 - alpha) * adv_loss + alpha * orig_loss)%Q /\
    ((alpha == 1)%Q -> (loss == orig_loss)%Q) /\
    ((alpha == 0)%Q -> (loss == adv_loss)%Q) /\
    preds = (if return_preds then Some (argmax <$> model x) else None) /\
    Store.forward_log w' = Store.forward_log w ++ [l; (l + 3)%nat] /\
    Store.heap w' !! l
    = Some {| Store.values := x; Store.requires_grad := true;
              Store.grad := Some data_grad |} /\
    Store.heap w' !! (l + 1)%nat
    = Some {| Store.values := x; Store.requires_grad := true;
              Store.grad := None |} /\
    Store.heap w' !! (l + 3)%nat
    = Some {| Store.values := adv; Store.requires_grad := false;
              Store.grad := None |}.
Proof.
  intros x orig_loss data_grad adv adv_loss l Hin.
  destruct (wp_elim _ _ _
              (wp_fgsm_loss model criterion inputs labels alpha epsilon
                            num_iter return_preds w o Hin))
    as ([loss preds] & w' & Hrun & Hr & Hlog & H1 & H2 & H3).
  injection Hr as -> ->.
  eexists _, _, w'. split; [exact Hrun|]. split; [reflexivity|].
  split; [|split].
  - intros Ha. rewrite Ha. unfold orig_loss, x. lra.
  - intros Ha. rewrite Ha. unfold adv_loss, adv, data_grad, x. lra.
  - repeat split; assumption.
Qed.

(** ** The sampling routine *)

Lemma any_negative_spec (std : list Q) :
  any_negative std = true <-> exists s, s ∈ std /\ (s < 0)%Q.
Proof.
  unfold any_negative. rewrite existsb_exists. split.
  - intros [s [Hin Hs]]. exists s. split; [apply list_elem_of_In, Hin|].
    destruct (Qlt_le_dec s 0); [assumption | discriminate].
  - intros [s [Hin Hs]]. exists s. split; [apply list_elem_of_In, Hin|].
    destruct (Qlt_le_dec s 0) as [|Hle]; [reflexivity|].
    exfalso. apply (Qlt_not_le _ _ Hs Hle).
Qed.

(** C8.  For a mean, a std and a noise draw of one shape,
    [sample_reparameterize] fails its assertion exactly when the std holds
    a strictly negative entry; otherwise it returns the sample
    [mean + std * epsilon], of that shape, and raises nothing. *)
Theorem sample_reparameterize_rejects_negative_std (mean std epsilon : list Q) :
  length std = length mean -> length epsilon = length mean ->
  ((exists s, s ∈ std /\ (s < 0)%Q) <->
   sample_reparameterize mean std epsilon = Raise AssertionError) /\
  (~ (exists s, s ∈ std /\ (s < 0)%Q) ->
   exists z,
     sample_reparameterize mean std epsilon = Return z /\
     length z = length mean /\
     forall i m s e,
       mean !! i = Some m -> std !! i = Some s -> epsilon !! i = Some e ->
       z !! i = Some (m + s * e)%Q).
Proof.
  intros Hstd Heps. unfold sample_reparameterize. split.
  - rewrite <- any_negative_spec.
    destruct (any_negative std); split; intros; congruence.
  - intros Hnone.
    destruct (any_negative std) eqn:Hany.
    { exfalso. apply Hnone, any_negative_spec, Hany. }
    eexists. split; [reflexivity|]. split.
    + rewrite !length_zip_with. lia.
    + intros i m s e Hm Hs He.
      rewrite !lookup_zip_with, Hm, Hs. simpl. rewrite He. reflexivity.
Qed.

(** * Instances of the statements *)

Section Instances.
Import Examples.

Lemma sample_reparameterize_rejects_negative_std_witness :
  sample_reparameterize [1%Q; 2%Q] [1 # 2; (-1)%Q] [3%Q; 4%Q]
  = Raise AssertionError.
Proof.
  apply (sample_reparameterize_rejects_negative_std
           [1%Q; 2%Q] [1 # 2; (-1)%Q] [3%Q; 4%Q] eq_refl eq_refl).
  exists (-1)%Q. split; [right; left | reflexivity].
Defined.

Lemma pgd_attack_within_epsilon_witness :
  exists perturbed_data,
    pgd_attack threshold_model [[1 # 2; 1%Q]] 1 nll_loss
      {| ALPHA := Some (1 # 10); EPSILON := Some (1 # 10);
         NUM_ITER := Some 3%Z |}
    = Return perturbed_data /\
    linf_within (1 # 10) perturbed_data [[1 # 2; 1%Q]].
Proof.
  apply pgd_attack_within_epsilon.
  - discriminate.
  - repeat constructor; discriminate.
Defined.

(** C2, as stated, fails on an input outside [0, 1]: one iteration from
    the entry -1 with [epsilon = 1/2] ends at 0, at distance 1. *)
Lemma pgd_attack_leaves_epsilon_ball :
  pgd_attack threshold_model [[(-1)%Q]] 1 nll_loss
    {| ALPHA := Some (1 # 10); EPSILON := Some (1 # 2);
       NUM_ITER := Some 1%Z |}
  = Return [[0%Q]] /\
  ~ linf_within (1 # 2) [[0%Q]] [[(-1)%Q]].
Proof.
  split; [reflexivity|].
  intros Hin. apply Forall2_cons_1 in Hin as [Hin _].
  apply Forall2_cons_1 in Hin as [Hin _].
  apply Hin. reflexivity.
Qed.

Lemma test_attack_accuracy_witness :
  exists advs,
    test_attack threshold_model two_examples "pgd" pgd_args
    = ([PrintSummary "pgd" pgd_args 1 2], Return (1 # 2, advs)).
Proof.
  refine (proj2 (test_attack_accuracy threshold_model two_examples "pgd"
                                      pgd_args) _ _).
  - right. repeat split; eexists; reflexivity.
  - discriminate.
Defined.

(** C1, as stated, fails when the loader holds an example that is skipped:
    of two examples one is attacked and stays robust, and the accuracy
    returned is 1/2, not 1/1. *)
Lemma test_attack_divides_by_loader_length :
  snd (test_attack threshold_model two_examples "pgd" pgd_args)
  = Return (1 # 2, []) /\
  robust_count (fun batch => denormalize batch default_mean default_std)
               threshold_model "pgd" pgd_args two_examples = 1%nat /\
  attacked_count threshold_model two_examples = 1%nat /\
  ~ (1 # 2 ==
     Z.of_nat (robust_count
                 (fun batch => denormalize batch default_mean default_std)
                 threshold_model "pgd" pgd_args two_examples)
     # Pos.of_nat (attacked_count threshold_model two_examples))%Q.
Proof.
  repeat split. intros Heq. discriminate Heq.
Qed.

Lemma test_attack_unknown_selector_raises_witness :
  test_attack threshold_model two_examples "cw" fgsm_args
  = ([PrintUnknownAttack "cw"], Raise UnboundLocalError).
Proof.
  apply test_attack_unknown_selector_raises.
  - discriminate.
  - discriminate.
  - exists ([[1%Q]], 1%nat). split; [right; left | reflexivity].
Defined.

Lemma denormalize_reaches_only_fgsm_witness :
  accuracy_of
    (snd (test_attack_with (fun batch => denormalize batch [0%Q] [1%Q])
                           threshold_model two_examples "pgd" pgd_args))
  = accuracy_of
      (snd (test_attack_with
              (fun batch => denormalize batch default_mean default_std)
              threshold_model two_examples "pgd" pgd_args)).
Proof.
  apply (proj1 (denormalize_reaches_only_fgsm threshold_model two_examples
                  "pgd" pgd_args [0%Q] [1%Q] default_mean default_std)).
  discriminate.
Defined.

(** C4, as stated, fails with the FGSM selector: the perturbed example is
    built from the denormalised input, so another mean and std give
    another perturbed example and another count. *)
Lemma fgsm_branch_reads_denormalize :
  attack_branch (fun batch => denormalize batch default_mean default_std)
                threshold_model [[1 # 5]] 0 "fgsm" fgsm_args None
  <> attack_branch (fun batch => denormalize batch [0%Q] [1%Q])
                   threshold_model [[1 # 5]] 0 "fgsm" fgsm_args None /\
  accuracy_of
    (snd (test_attack_with
            (fun batch => denormalize batch default_mean default_std)
            threshold_model near_threshold "fgsm" fgsm_args))
  = Return (0 # 1) /\
  accuracy_of
    (snd (test_attack_with (fun batch => denormalize batch [0%Q] [1%Q])
                           threshold_model near_threshold "fgsm" fgsm_args))
  = Return (1 # 1).
Proof.
  split; [|split; reflexivity].
  vm_compute. intros Heq. discriminate Heq.
Qed.

Lemma pgd_attack_preserves_input_witness :
  exists l w',
    Store.pgd_attack threshold_model 0 1 nll_loss pgd_args one_tensor
    = Return (l, w') /\
    Store.heap w' !! 0%nat
    = Some {| Store.values := [[1%Q]]; Store.requires_grad := false;
              Store.grad := None |}.
Proof.
  destruct (pgd_attack_preserves_input threshold_model 0 1 nll_loss
              (1 # 10) (1 # 10) 1 one_tensor _ eq_refl)
    as (l & w' & Hrun & _ & Hdata & _).
  exists l, w'. split; [exact Hrun | exact Hdata].
Defined.

Lemma fgsm_loss_combination_witness :
  exists loss preds w',
    Store.fgsm_loss batch_model sum_loss 0 [1%nat]
      {| ALPHA := Some 1%Q; EPSILON := Some (1 # 10); NUM_ITER := None |}
      true one_tensor
    = Return ((loss, preds), w') /\
    (loss == sum_loss (batch_model [[1%Q]]) [1%nat])%Q.
Proof.
  destruct (fgsm_loss_combination batch_model sum_loss 0 [1%nat] 1 (1 # 10)
              None true one_tensor _ eq_refl)
    as (loss & preds & w' & Hrun & _ & Hone & _).
  exists loss, preds, w'. split; [exact Hrun|].
  apply Hone. reflexivity.
Defined.

(** C7, as stated, fails on the second forward pass: the tensor handed to
    the classifier there is detached and tracks no gradients. *)
Lemma fgsm_loss_adversarial_pass_detached :
  exists r w',
    Store.fgsm_loss batch_model sum_loss 0 [1%nat] pgd_args true one_tensor
    = Return (r, w') /\
    Store.forward_log w' = [1%nat; 4%nat] /\
    ~ Store.forward_passes_track_gradients w'.
Proof.
  eexists. eexists. split; [lazy; reflexivity|]. split; [reflexivity|].
  unfold Store.forward_passes_track_gradients. cbn [Store.forward_log].
  intros Hall. apply Forall_cons_1 in Hall as [_ Hall].
  apply Forall_cons_1 in Hall as [[o [Hl Hrg]] _].
  vm_compute in Hl. injection Hl as <-. discriminate Hrg.
Qed.

End Instances.

(** * Further properties of the attacks *)

Lemma Qabs_step (x eps s : Q) :
  s = 1%Q \/ s = (-1)%Q -> (Qabs (x + eps * s - x) == Qabs eps)%Q.
Proof.
  intros [->| ->].
  - apply Qabs_wd. ring.
  - rewrite <- (Qabs_opp eps). apply Qabs_wd. ring.
Qed.

Lemma sign_nonzero (g : Q) :
  ~ (g == 0)%Q -> sign g = 1%Q \/ sign g = (-1)%Q.
Proof.
  intros Hg. destruct (sign_cases g) as (Hneg & _ & Hpos).
  destruct (Q_dec g 0) as [[Hlt|Hgt]|Heq]; [right|left|contradiction]; auto.
Qed.

(** The single step moves every entry by exactly [|epsilon|] where the
    gradient is not zero and leaves it where the gradient is zero; so the
    result stays within [|epsilon|] of the image, and a zero step size
    returns the image. *)
Theorem fgsm_attack_moves_by_step (image data_grad : Tensor) (epsilon : Q) :
  shape data_grad = shape image ->
  linf_within (Qabs epsilon) (fgsm_attack image data_grad epsilon) image /\
  (forall c i x g r,
     entry image c i = Some x -> entry data_grad c i = Some g ->
     entry (fgsm_attack image data_grad epsilon) c i = Some r ->
     ((g == 0)%Q -> (r == x)%Q) /\
     (~ (g == 0)%Q -> (Qabs (r - x) == Qabs epsilon)%Q) /\
     ((epsilon == 0)%Q -> (r == x)%Q)).
Proof.
  intros Hs.
  assert (Hentry : forall c i x g r,
     entry image c i = Some x -> entry data_grad c i = Some g ->
     entry (fgsm_attack image data_grad epsilon) c i = Some r ->
     r = (x + epsilon * sign g)%Q).
  { intros c i x g r Hx Hg Hr. rewrite fgsm_attack_entry, Hx in Hr.
    simpl in Hr. rewrite Hg in Hr. simpl in Hr. congruence. }
  split.
  - apply linf_within_entries; [apply fgsm_attack_shape, Hs|].
    intros c i r x Hr Hx.
    destruct (entry_same_shape image data_grad c i x (eq_sym Hs) Hx) as [g Hg].
    rewrite (Hentry c i x g r Hx Hg Hr).
    destruct (Qeq_dec g 0) as [Hz|Hnz].
    + rewrite (proj1 (proj2 (sign_cases g)) Hz).
      assert (E : (x + epsilon * 0 - x == 0)%Q) by ring.
      rewrite E. apply Qabs_nonneg.
    + rewrite (Qabs_step x epsilon (sign g) (sign_nonzero g Hnz)).
      apply Qle_refl.
  - intros c i x g r Hx Hg Hr. rewrite (Hentry c i x g r Hx Hg Hr).
    split; [|split].
    + intros Hz. rewrite (proj1 (proj2 (sign_cases g)) Hz). ring.
    + intros Hnz. apply Qabs_step, sign_nonzero, Hnz.
    + intros ->. ring.
Qed.

Lemma fgsm_attack_moves_by_step_witness :
  linf_within (Qabs (1 # 4)) (fgsm_attack [[1%Q; 0%Q]] [[(-2)%Q; 0%Q]] (1 # 4))
              [[1%Q; 0%Q]].
Proof.
  apply (fgsm_attack_moves_by_step [[1%Q; 0%Q]] [[(-2)%Q; 0%Q]] (1 # 4)).
  reflexivity.
Defined.

(** ** Keys, iteration counts and ranges of [pgd_attack] *)

Lemma tclamp_between (t : Tensor) (lo hi : Q) :
  (lo <= hi)%Q -> Forall (Forall (fun x => (lo <= x <= hi)%Q)) (tclamp t lo hi).
Proof.
  intros Hle. unfold tclamp, tmap.
  apply Forall_fmap, Forall_true. intros plane.
  apply Forall_fmap, Forall_true. intros x. apply clamp_between, Hle.
Qed.

(** A count of iterations that is zero or negative leaves the loop body
    unexecuted and the input is returned; after one iteration or more the
    result has the shape of the input and all its entries lie in [0, 1],
    whatever the input, the step size and [epsilon] are. *)
Theorem pgd_attack_iteration_count `{Torch} (model : Tensor -> list Q)
    (data : Tensor) (target : nat) (criterion : list Q -> nat -> Q)
    (alpha epsilon : Q) (num_iter : Z) :
  let args := {| ALPHA := Some alpha; EPSILON := Some epsilon;
                 NUM_ITER := Some num_iter |} in
  ((num_iter <= 0)%Z ->
   pgd_attack model data target criterion args = Return data) /\
  ((1 <= num_iter)%Z ->
   exists perturbed_data,
     pgd_attack model data target criterion args = Return perturbed_data /\
     shape perturbed_data = shape data /\
     in_unit_range perturbed_data).
Proof.
  intros args. unfold pgd_attack, args. cbn. split.
  - intros Hn. replace (Z.to_nat num_iter) with 0%nat by lia. reflexivity.
  - intros Hn. eexists. split; [reflexivity|]. split.
    + apply pgd_iter_shape.
    + destruct (Z.to_nat num_iter) as [|n] eqn:Hnat; [lia|].
      simpl. unfold pgd_step, in_unit_range.
      apply tclamp_between. discriminate.
Qed.

Lemma pgd_attack_iteration_count_witness :
  pgd_attack (H := Examples.ones_torch) Examples.threshold_model [[3%Q]] 1
             nll_loss
             {| ALPHA := Some (1 # 10); EPSILON := Some (1 # 10);
                NUM_ITER := Some (-2)%Z |}
  = Return [[3%Q]].
Proof.
  apply (pgd_attack_iteration_count (H := Examples.ones_torch)
           Examples.threshold_model [[3%Q]] 1 nll_loss (1 # 10) (1 # 10) (-2)).
  discriminate.
Defined.

Lemma clamp_inverted (lo hi x : Q) : (hi < lo)%Q -> clamp lo hi x = hi.
Proof.
  intros Hlt. unfold clamp, Qmin, GenericMinMax.gmin.
  assert (Hgt : (hi < Qmax x lo)%Q).
  { eapply Qlt_le_trans; [exact Hlt | apply Q.le_max_r]. }
  apply Qgt_alt in Hgt. rewrite Hgt. reflexivity.
Qed.

Lemma tensor_eq (a b : Tensor) :
  shape a = shape b -> (forall c i, entry a c i = entry b c i) -> a = b.
Proof.
  intros Hs He.
  assert (Hlen : length a = length b).
  { apply (f_equal length) in Hs. unfold shape in Hs.
    rewrite !length_fmap in Hs. exact Hs. }
  apply (list_eq_same_length a b (length b) eq_refl Hlen).
  intros c pa pb _ Ha Hb.
  apply (list_eq_same_length pa pb (length pb) eq_refl
           (shape_lookup a b c pa pb Hs Ha Hb)).
  intros i x y _ Hx Hy. specialize (He c i). unfold entry in He.
  rewrite Ha, Hb in He. simpl in He. congruence.
Qed.

(** With a negative [epsilon] the bounds of the first clamp are inverted
    and every perturbation becomes [epsilon] itself: after one iteration or
    more each entry [o] of the input has become [o + epsilon] clamped to
    [0, 1], whatever the gradients, the step size and the count are. *)
Theorem pgd_attack_negative_epsilon `{Torch} (model : Tensor -> list Q)
    (data : Tensor) (target : nat) (criterion : list Q -> nat -> Q)
    (alpha epsilon : Q) (num_iter : Z) :
  (epsilon < 0)%Q -> (1 <= num_iter)%Z ->
  pgd_attack model data target criterion
    {| ALPHA := Some alpha; EPSILON := Some epsilon;
       NUM_ITER := Some num_iter |}
  = Return (tmap (fun o => clamp 0 1 (o + epsilon)) data).
Proof.
  intros Heps Hn. unfold pgd_attack. cbn. f_equal.
  destruct (Z.to_nat num_iter) as [|n] eqn:Hnat; [lia|]. simpl.
  set (adv := Nat.iter n _ data).
  assert (Hadv : shape adv = shape data) by apply pgd_iter_shape.
  apply tensor_eq.
  - rewrite pgd_step_shape, shape_tmap; [reflexivity | exact Hadv].
  - intros c i. unfold pgd_step, tclamp, tadd, tsub.
    rewrite !entry_tmap, entry_tzip, entry_tmap, entry_tzip.
    destruct (entry data c i) as [o|] eqn:Ho; [|reflexivity]. simpl.
    destruct (entry_same_shape data
                (fgsm_attack adv
                   (input_grad (fun x => criterion (model x) target) adv)
                   alpha) c i o) as [a Ha]; [|exact Ho|].
    { rewrite fgsm_attack_shape; [congruence | apply input_grad_shape]. }
    rewrite Ha. simpl.
    rewrite (clamp_inverted (- epsilon) epsilon) by lra. reflexivity.
Qed.

Lemma pgd_attack_negative_epsilon_witness :
  pgd_attack (H := Examples.ones_torch) Examples.threshold_model
             [[1%Q; 0%Q]] 1 nll_loss
             {| ALPHA := Some (1 # 10); EPSILON := Some (- (1 # 4))%Q;
                NUM_ITER := Some 2%Z |}
  = Return [[3 # 4; 0%Q]].
Proof.
  refine (pgd_attack_negative_epsilon (H := Examples.ones_torch)
            Examples.threshold_model [[1%Q; 0%Q]] 1 nll_loss (1 # 10)
            (- (1 # 4))%Q 2 _ _).
  - reflexivity.
  - discriminate.
Defined.

(** ** Forward passes and store effects *)

Section StoreEffects.
Context `{Torch}.
Import Store.

Lemma wp_pgd_loop_log (model : Tensor -> list Q) (target : nat)
    (criterion : list Q -> nat -> Q) (alpha epsilon : Q) (n : nat) :
  forall (w : world) (orig_data adv_data : nat) (oo oa : tensor_obj),
    heap w !! orig_data = Some oo -> heap w !! adv_data = Some oa ->
    grad oa = None -> orig_data <> adv_data ->
    wp (Store.pgd_loop n model target criterion alpha epsilon
                       orig_data adv_data) w
       (fun l w' =>
          length (heap w') = (length (heap w) + 3 * n)%nat /\
          (forall k, k <> adv_data -> (k < length (heap w))%nat ->
                     heap w' !! k = heap w !! k) /\
          (l < length (heap w'))%nat /\
          exists locs,
            forward_log w' = forward_log w ++ locs /\
            length locs = n /\
            Forall (fun k =>
                      (k = adv_data \/ (length (heap w) <= k)%nat) /\
                      exists o, heap w' !! k = Some o /\
                        requires_grad o = true /\ is_Some (grad o)) locs).
Proof.
  induction n as [|n IH]; intros w orig_data adv_data oo oa Ho Ha Hg Hne.
  - apply wp_ret. split; [lia|]. split; [auto|]. split.
    + eapply lookup_lt_Some; eassumption.
    + exists []. rewrite app_nil_r. repeat split. constructor.
  - assert (Hlt : (adv_data < length (heap w))%nat)
      by (eapply lookup_lt_Some; eassumption).
    assert (Hlo : (orig_data < length (heap w))%nat)
      by (eapply lookup_lt_Some; eassumption).
    cbn [Store.pgd_loop].
    apply wp_bind, (wp_requires_grad_ adv_data oa); [exact Ha|].
    eapply wp_bind, wp_forward; [cbn [heap]; heap_lookup|].
    eapply wp_bind, wp_backward; [cbn [heap]; heap_lookup|reflexivity|].
    eapply wp_bind, wp_grad_data; [cbn [heap]; heap_lookup|reflexivity|].
    eapply wp_bind, wp_read; [cbn [heap]; heap_lookup|].
    apply wp_bind, wp_alloc.
    eapply wp_bind, wp_read; [cbn [heap]; heap_lookup|].
    eapply wp_bind, (wp_read orig_data oo); [cbn [heap]; heap_lookup|].
    apply wp_bind, wp_alloc.
    eapply wp_bind, wp_read; [cbn [heap]; heap_lookup|].
    apply wp_bind, wp_alloc.
    cbn [heap forward_log values requires_grad grad].
    eapply wp_mono; cycle 1.
    { eapply (IH _ orig_data _ oo); cbn [heap].
      - heap_lookup.
      - heap_lookup.
      - reflexivity.
      - revert Hlo. heap_length. }
    cbn [heap forward_log values].
    intros l w' (Hlen & Hframe & Hl & locs & Hlog & Hlocs & Hall).
    split; [|split; [|split]].
    + rewrite Hlen. heap_length.
    + intros k Hk Hkl. rewrite Hframe.
      * heap_lookup.
      * revert Hkl. heap_length.
      * revert Hkl. heap_length.
    + exact Hl.
    + exists (adv_data :: locs). split; [|split].
      * rewrite Hlog, <- app_assoc. reflexivity.
      * simpl. lia.
      * constructor.
        -- split; [left; reflexivity|]. eexists. split.
           ++ rewrite Hframe; [heap_lookup | heap_length | heap_length].
           ++ split; [reflexivity | eexists; reflexivity].
        -- eapply Forall_impl; [exact Hall|].
           intros k [[->|Hk] Hobj]; (split; [right|exact Hobj]).
           ++ heap_length.
           ++ revert Hk. heap_length.
Qed.

Lemma wp_pgd_attack_log (model : Tensor -> list Q) (target : nat)
    (criterion : list Q -> nat -> Q) (alpha epsilon : Q) (data : nat)
    (num_iter : Z) (w : world) (o : tensor_obj) :
  heap w !! data = Some o ->
  wp (Store.pgd_attack model data target criterion
        {| ALPHA := Some alpha; EPSILON := Some epsilon;
           NUM_ITER := Some num_iter |}) w
     (fun l w' =>
        length (heap w')
        = (length (heap w) + 3 * Z.to_nat num_iter + 3)%nat /\
        exists locs,
          forward_log w' = forward_log w ++ locs /\
          length locs = Z.to_nat num_iter /\
          Forall (fun k =>
                    (length (heap w) <= k)%nat /\
                    exists o, heap w' !! k = Some o /\
                      requires_grad o = true /\ is_Some (grad o)) locs).
Proof.
  intros Hd.
  assert (Hlt : (data < length (heap w))%nat)
    by (eapply lookup_lt_Some; eassumption).
  unfold Store.pgd_attack. cbn [getitem ALPHA EPSILON NUM_ITER].
  do 3 apply wp_bind, wp_lift.
  eapply wp_bind, wp_clone_detach; [exact Hd|].
  eapply wp_bind, wp_clone_detach; [cbn [heap]; heap_lookup|].
  apply wp_bind. eapply wp_mono; cycle 1.
  { eapply (wp_pgd_loop_log _ _ _ _ _ _ _ (length (heap w))); cbn [heap].
    - heap_lookup.
    - heap_lookup.
    - reflexivity.
    - heap_length. }
  cbn [heap forward_log].
  intros l w' (Hlen & Hframe & Hl & locs & Hlog & Hlocs & Hall).
  apply lookup_lt_is_Some in Hl as [o' Ho'].
  eapply wp_bind, wp_detach; [exact Ho'|].
  apply wp_ret. cbn [heap forward_log]. split.
  - rewrite length_app, Hlen. heap_length.
  - exists locs. split; [exact Hlog|]. split; [exact Hlocs|].
    eapply Forall_impl; [exact Hall|].
    intros k [Hk (ok & Hok & Hrg)]. split.
    + destruct Hk as [->|Hk]; [heap_length | revert Hk; heap_length].
    + exists ok. split; [|exact Hrg].
      rewrite lookup_app_l; [exact Hok|]. eapply lookup_lt_Some, Hok.
Qed.

Lemma wp_fgsm_loss_frame (model : Tensor -> list (list Q))
    (criterion : list (list Q) -> list nat -> Q) (inputs : nat)
    (labels : list nat) (alpha epsilon : Q) (num_iter : option Z)
    (return_preds : bool) (w : world) (o : tensor_obj) :
  heap w !! inputs = Some o ->
  wp (Store.fgsm_loss model criterion inputs labels
        {| ALPHA := Some alpha; EPSILON := Some epsilon; NUM_ITER := num_iter |}
        return_preds) w
     (fun r w' =>
        heap w' !! inputs
        = Some {| values := values o; requires_grad := true;
                  grad := grad o |} /\
        (forall k, k <> inputs -> (k < length (heap w))%nat ->
                   heap w' !! k = heap w !! k) /\
        length (heap w') = (length (heap w) + 4)%nat).
Proof.
  intros Hin.
  assert (Hlt : (inputs < length (heap w))%nat)
    by (eapply lookup_lt_Some; eassumption).
  unfold Store.fgsm_loss. cbn [getitem ALPHA EPSILON].
  do 2 apply wp_bind, wp_lift.
  eapply wp_bind, wp_requires_grad_; [exact Hin|].
  eapply wp_bind, wp_clone_detach; [cbn [heap]; heap_lookup|].
  eapply wp_bind, wp_clone_detach; [cbn [heap]; heap_lookup|].
  eapply wp_bind, wp_forward; [cbn [heap]; heap_lookup|].
  eapply wp_bind, wp_backward; [cbn [heap]; heap_lookup|reflexivity|].
  eapply wp_bind, wp_grad_data; [cbn [heap]; heap_lookup|reflexivity|].
  eapply wp_bind, wp_read; [cbn [heap]; heap_lookup|].
  apply wp_bind, wp_alloc.
  eapply wp_bind, wp_detach; [cbn [heap]; heap_lookup|].
  eapply wp_bind, wp_forward; [cbn [heap]; heap_lookup|].
  cbn [heap forward_log values requires_grad grad].
  destruct return_preds; apply wp_ret; cbn [heap];
    (split; [heap_lookup|]);
    (split; [intros k Hk Hkl; heap_lookup | heap_length]).
Qed.

End StoreEffects.

(** Run on a store, [pgd_attack] evaluates the classifier exactly
    [num_iter] times (never for a count that is zero or negative), each
    time on a tensor allocated by the call, which tracks gradients and
    holds one; the caller's tensors are never handed to the classifier. *)
Theorem pgd_attack_forward_passes `{Torch} (model : Tensor -> list Q)
    (data target : nat) (criterion : list Q -> nat -> Q) (alpha epsilon : Q)
    (num_iter : Z) (w : Store.world) (o : Store.tensor_obj) :
  Store.heap w !! data = Some o ->
  exists l w' locs,
    Store.pgd_attack model data target criterion
      {| ALPHA := Some alpha; EPSILON := Some epsilon;
         NUM_ITER := Some num_iter |} w
    = Return (l, w') /\
    Store.forward_log w' = Store.forward_log w ++ locs /\
    length locs = Z.to_nat num_iter /\
    Forall (fun k =>
              (length (Store.heap w) <= k)%nat /\
              exists ok, Store.heap w' !! k = Some ok /\
                Store.requires_grad ok = true /\ is_Some (Store.grad ok))
           locs.
Proof.
  intros Hd.
  destruct (wp_elim _ _ _
              (wp_pgd_attack_log model target criterion alpha epsilon data
                                 num_iter w o Hd))
    as (l & w' & Hrun & Hlen & locs & Hlog & Hlocs & Hall).
  exists l, w', locs. repeat split; assumption.
Qed.

Lemma pgd_attack_forward_passes_witness :
  exists l w' locs,
    Store.pgd_attack (H := Examples.ones_torch) Examples.threshold_model 0 1
                     nll_loss
                     {| ALPHA := Some (1 # 10); EPSILON := Some (1 # 10);
                        NUM_ITER := Some 3%Z |}
                     Examples.one_tensor
    = Return (l, w') /\
    Store.forward_log w' = [] ++ locs /\ length locs = 3%nat /\
    Forall (fun k => (1 <= k)%nat) locs.
Proof.
  destruct (pgd_attack_forward_passes (H := Examples.ones_torch)
              Examples.threshold_model 0 1 nll_loss (1 # 10) (1 # 10) 3
              Examples.one_tensor _ eq_refl)
    as (l & w' & locs & Hrun & Hlog & Hlocs & Hall).
  exists l, w', locs. repeat split; try assumption.
  eapply Forall_impl; [exact Hall|]. intros k [Hk _]. exact Hk.
Defined.

(** [fgsm_loss] marks the tensor it is handed.  With [ALPHA] and
    [EPSILON] present it returns, and the caller's input tensor then has
    [requires_grad] switched on, whatever the flag was, with the entries
    and the gradient it had before the call: both forward passes run on
    detached copies, so the backward pass writes no gradient to it. *)
Theorem fgsm_loss_marks_input `{Torch} (model : Tensor -> list (list Q))
    (criterion : list (list Q) -> list nat -> Q) (inputs : nat)
    (labels : list nat) (alpha epsilon : Q) (num_iter : option Z)
    (return_preds : bool) (w : Store.world) (o : Store.tensor_obj) :
  Store.heap w !! inputs = Some o ->
  exists r w',
    Store.fgsm_loss model criterion inputs labels
      {| ALPHA := Some alpha; EPSILON := Some epsilon; NUM_ITER := num_iter |}
      return_preds w
    = Return (r, w') /\
    Store.heap w' !! inputs
    = Some {| Store.values := Store.values o; Store.requires_grad := true;
              Store.grad := Store.grad o |}.
Proof.
  intros Hin.
  destruct (wp_elim _ _ _
              (wp_fgsm_loss_frame model criterion inputs labels alpha
                                  epsilon num_iter return_preds w o Hin))
    as (r & w' & Hrun & Hinputs & _).
  exists r, w'. split; [exact Hrun | exact Hinputs].
Qed.

Lemma fgsm_loss_marks_input_witness :
  exists r w',
    Store.fgsm_loss (H := Examples.ones_torch) Examples.batch_model
                    Examples.sum_loss 0 [1%nat]
                    {| ALPHA := Some 1%Q; EPSILON := Some (1 # 10);
                       NUM_ITER := None |}
                    true Examples.one_tensor
    = Return (r, w') /\
    Store.heap w' !! 0%nat
    = Some {| Store.values := [[1%Q]]; Store.requires_grad := true;
              Store.grad := None |}.
Proof.
  exact (fgsm_loss_marks_input (H := Examples.ones_torch)
           Examples.batch_model Examples.sum_loss 0 [1%nat] 1 (1 # 10) None
           true Examples.one_tensor _ eq_refl).
Defined.

(** ** Further properties of the evaluator *)

Section EvaluatorEdges.
Context `{Torch} `{Globals}.
Variables (denorm : Tensor -> Tensor) (model : Tensor -> list Q).
Variables (attack_function : string) (attack_args : Args).

Lemma take_take_app {A : Type} (n : nat) (a b : list A) :
  take n (take n a ++ b) = take n (a ++ b).
Proof.
  destruct (decide (length a <= n)%nat) as [Hle|Hgt].
  - rewrite (take_ge a) by exact Hle. reflexivity.
  - rewrite (take_app_le (take n a)) by (rewrite length_take; lia).
    rewrite take_take, Nat.min_id.
    rewrite (take_app_le a) by lia. reflexivity.
Qed.

Lemma failures_cons (ex : Tensor * nat) (rest : list (Tensor * nat)) :
  failures denorm model attack_function attack_args (ex :: rest)
  = match failure_entry denorm model attack_function attack_args ex with
    | Some e => e :: failures denorm model attack_function attack_args rest
    | None => failures denorm model attack_function attack_args rest
    end.
Proof. reflexivity. Qed.

(** The list a returning run ends with: the first five failures. *)
Lemma test_loop_failures (test_loader : list (Tensor * nat)) :
  forall st out out' st',
    attack_function = FGSM \/ attack_function = PGD \/
      perturbed_data st = None ->
    test_loop denorm model attack_function attack_args test_loader st out
    = (out', Return st') ->
    (length (adv_examples st) <= 5)%nat ->
    adv_examples st'
    = take 5 (adv_examples st ++
              failures denorm model attack_function attack_args test_loader).
Proof.
  induction test_loader as [|[data target] rest IH];
    intros st out out' st' Hk Hrun Hlen.
  - simpl in Hrun. injection Hrun as _ <-.
    unfold failures. simpl. rewrite app_nil_r, take_ge by exact Hlen.
    reflexivity.
  - rewrite failures_cons. unfold failure_entry, attacked.
    cbn [test_loop fst snd] in *.
    assert (Hbranch :
      attack_branch denorm model data target attack_function attack_args
                    (perturbed_data st)
      = attack_branch denorm model data target attack_function attack_args
                      None).
    { destruct Hk as [Hk|[Hk|Hk]].
      - apply attack_branch_known. left. exact Hk.
      - apply attack_branch_known. right. exact Hk.
      - rewrite Hk. reflexivity. }
    rewrite Hbranch in Hrun.
    destruct (decide (argmax (model data) ≠ target)) as [Hne|Heq].
    { rewrite bool_decide_eq_false_2 by exact Hne.
      exact (IH st out out' st' Hk Hrun Hlen). }
    apply dec_stable in Heq. rewrite (bool_decide_eq_true_2 _ Heq).
    assert (Hknown : forall perturbed,
      snd (attack_branch denorm model data target attack_function attack_args
                         None) = Return (Some perturbed) ->
      attack_function = FGSM \/ attack_function = PGD).
    { intros perturbed Hp.
      destruct (decide (attack_function = FGSM)) as [|HF]; [auto|].
      destruct (decide (attack_function = PGD)) as [|HP]; [auto|].
      rewrite attack_branch_unknown in Hp by assumption. discriminate Hp. }
    destruct (snd (attack_branch denorm model data target attack_function
                                 attack_args None))
      as [[perturbed|]|e] eqn:Hsnd; try discriminate.
    assert (Hk' : forall st1 : locals,
      attack_function = FGSM \/ attack_function = PGD \/
        perturbed_data st1 = None).
    { intros st1. destruct (Hknown perturbed eq_refl); auto. }
    destruct (decide (argmax (model perturbed) = target)) as [Hr|Hr].
    { exact (IH _ _ _ _ (Hk' _) Hrun Hlen). }
    destruct (decide (length (adv_examples st) < 5)%nat) as [Hlt|Hge].
    + rewrite (IH _ _ _ _ (Hk' _) Hrun); cbn [adv_examples].
      * rewrite <- app_assoc. reflexivity.
      * rewrite length_app. simpl. lia.
    + rewrite (IH _ _ _ _ (Hk' _) Hrun Hlen); cbn [adv_examples].
      rewrite !take_app_le by lia. reflexivity.
Qed.

Lemma attack_branch_key_missing (data : Tensor) (target : nat)
    (bound : option Tensor) :
  key_missing attack_function attack_args ->
  attack_branch denorm model data target attack_function attack_args bound
  = ([], Raise KeyError).
Proof.
  unfold key_missing, attack_branch.
  intros [[HF He]|(HF & HP & Hm)].
  - destruct (decide (attack_function = FGSM)); [|contradiction].
    rewrite He. reflexivity.
  - destruct (decide (attack_function = FGSM)); [contradiction|].
    destruct (decide (attack_function = PGD)); [|contradiction].
    unfold pgd_attack.
    destruct (ALPHA attack_args) as [a0|]; cbn; [|reflexivity].
    destruct (EPSILON attack_args) as [e0|]; cbn; [|reflexivity].
    destruct (NUM_ITER attack_args) as [n0|]; cbn; [|reflexivity].
    destruct Hm as [Hm|[Hm|Hm]]; discriminate Hm.
Qed.

Lemma test_loop_key_missing (test_loader : list (Tensor * nat)) :
  key_missing attack_function attack_args ->
  (exists ex, ex ∈ test_loader /\ argmax (model ex.1) = ex.2) ->
  forall st out,
    test_loop denorm model attack_function attack_args test_loader st out
    = (out, Raise KeyError).
Proof.
  intros Hm.
  induction test_loader as [|[data target] rest IH];
    intros [ex [Hin Hex]] st out.
  - inversion Hin.
  - cbn [test_loop]. rewrite (attack_branch_key_missing _ _ _ Hm).
    destruct (decide (argmax (model data) ≠ target)) as [Hne|Heq].
    + apply IH.
      apply elem_of_cons in Hin as [->|Hin]; [contradiction|].
      exists ex. split; assumption.
    + cbn [fst snd]. rewrite app_nil_r. reflexivity.
Qed.

(** When the classifier gets no example right, nothing is attacked and
    the loop returns its state and prints nothing, whatever the selector
    and the dictionary are. *)
Lemma test_loop_nothing_attacked (test_loader : list (Tensor * nat)) :
  Forall (fun ex => argmax (model ex.1) <> ex.2) test_loader ->
  forall st out,
    test_loop denorm model attack_function attack_args test_loader st out
    = (out, Return st).
Proof.
  induction 1 as [|[data target] rest Hne _ IH]; intros st out.
  - reflexivity.
  - cbn [test_loop]. simpl in Hne.
    destruct (decide (argmax (model data) ≠ target)); [apply IH|contradiction].
Qed.

Lemma robust_le_attacked (test_loader : list (Tensor * nat)) :
  (robust_count denorm model attack_function attack_args test_loader
   <= attacked_count model test_loader)%nat /\
  (attacked_count model test_loader <= length test_loader)%nat.
Proof.
  induction test_loader as [|ex rest [IH1 IH2]].
  - split; reflexivity.
  - rewrite robust_count_cons, attacked_count_cons. unfold robust.
    destruct (attacked model ex); simpl;
      [destruct (match snd _ with Return (Some _) => _ | _ => false end)|];
      split; lia.
Qed.

End EvaluatorEdges.

(** In a run that returns, [adv_examples] is the list of the first five
    successful attacks, in the order of the loader: each entry holds the
    clean prediction, the adversarial prediction, and the denormalised
    original and perturbed examples. *)
Theorem test_attack_first_failures `{Torch} `{Globals}
    (model : Tensor -> list Q) (test_loader : list (Tensor * nat))
    (attack_function : string) (attack_args : Args)
    (out : list event) (final_acc : Q) (advs : list adv_entry) :
  test_attack model test_loader attack_function attack_args
  = (out, Return (final_acc, advs)) ->
  advs
  = take 5 (failures (fun batch => denormalize batch default_mean default_std)
                     model attack_function attack_args test_loader).
Proof.
  unfold test_attack, test_attack_with.
  destruct (test_loop _ model attack_function attack_args test_loader _ [])
    as [out0 [st|e]] eqn:Hrun; cbn [fst snd]; [|discriminate].
  destruct (decide (length test_loader = 0)%nat); [discriminate|].
  intros Hret. injection Hret as _ _ <-.
  apply test_loop_failures in Hrun; [exact Hrun| |simpl; lia].
  right. right. reflexivity.
Qed.

Lemma test_attack_first_failures_witness :
  exists advs,
    snd (test_attack (H := Examples.ones_torch) (H0 := Examples.str_globals)
           Examples.threshold_model Examples.near_threshold "fgsm"
           Examples.fgsm_args)
    = Return (0 # 1, advs) /\
    advs
    = take 5 (failures (H := Examples.ones_torch) (H0 := Examples.str_globals)
                (fun batch => denormalize batch default_mean default_std)
                Examples.threshold_model "fgsm" Examples.fgsm_args
                Examples.near_threshold).
Proof.
  eexists. split; [reflexivity|].
  exact (test_attack_first_failures (H := Examples.ones_torch)
           (H0 := Examples.str_globals) Examples.threshold_model
           Examples.near_threshold "fgsm" Examples.fgsm_args _ _ _ eq_refl).
Defined.

(** When the classifier gets no example of the loader right, nothing is
    attacked, whatever the selector and the dictionary are: an empty loader
    ends in [ZeroDivisionError], any other in the accuracy 0 and no
    recorded example, only the summary being printed. *)
Theorem test_attack_nothing_attacked `{Torch} `{Globals}
    (model : Tensor -> list Q) (test_loader : list (Tensor * nat))
    (attack_function : string) (attack_args : Args) :
  Forall (fun ex => argmax (model ex.1) <> ex.2) test_loader ->
  (test_loader = [] ->
   test_attack model test_loader attack_function attack_args
   = ([], Raise ZeroDivisionError)) /\
  (test_loader <> [] ->
   test_attack model test_loader attack_function attack_args
   = ([PrintSummary attack_function attack_args 0 (length test_loader)],
      Return (0 # Pos.of_nat (length test_loader), []))).
Proof.
  intros Hnone. unfold test_attack, test_attack_with.
  rewrite (test_loop_nothing_attacked _ model attack_function attack_args
             test_loader Hnone).
  cbn [fst snd correct adv_examples]. split.
  - intros ->. reflexivity.
  - intros Hne.
    destruct (decide (length test_loader = 0)%nat) as [Hz|Hnz]; [|reflexivity].
    destruct test_loader; [contradiction | discriminate].
Qed.

Lemma test_attack_nothing_attacked_witness :
  test_attack (H := Examples.ones_torch) (H0 := Examples.str_globals)
    Examples.threshold_model [([[0%Q]], 1%nat)] "cw" Examples.fgsm_args
  = ([PrintSummary "cw" Examples.fgsm_args 0 1], Return (0 # 1, [])).
Proof.
  refine (proj2 (test_attack_nothing_attacked (H := Examples.ones_torch)
                   (H0 := Examples.str_globals) Examples.threshold_model
                   [([[0%Q]], 1%nat)] "cw" Examples.fgsm_args _) _).
  - repeat constructor. discriminate.
  - discriminate.
Defined.

(** With the FGSM or the PGD selector and a key of that attack absent
    from the dictionary, the first example the classifier gets right ends
    the run in [KeyError], nothing having been printed. *)
Theorem test_attack_key_error `{Torch} `{Globals}
    (model : Tensor -> list Q) (test_loader : list (Tensor * nat))
    (attack_function : string) (attack_args : Args) :
  key_missing attack_function attack_args ->
  (exists ex, ex ∈ test_loader /\ argmax (model ex.1) = ex.2) ->
  test_attack model test_loader attack_function attack_args
  = ([], Raise KeyError).
Proof.
  intros Hm Hex. unfold test_attack, test_attack_with.
  rewrite (test_loop_key_missing _ model attack_function attack_args
             test_loader Hm Hex).
  reflexivity.
Qed.

Lemma test_attack_key_error_witness :
  test_attack (H := Examples.ones_torch) (H0 := Examples.str_globals)
    Examples.threshold_model Examples.two_examples "pgd" Examples.fgsm_args
  = ([], Raise KeyError).
Proof.
  apply (test_attack_key_error (H := Examples.ones_torch)
           (H0 := Examples.str_globals)).
  - right. split; [discriminate|]. split; [reflexivity|]. left. reflexivity.
  - exists ([[1%Q]], 1%nat). split; [right; left | reflexivity].
Defined.

Lemma fraction_le (a b n : nat) :
  (a <= b)%nat -> n <> 0%nat ->
  (Z.of_nat a # Pos.of_nat n <= Z.of_nat b # Pos.of_nat n)%Q.
Proof.
  intros Hab Hn. unfold Qle. cbn [Qnum Qden].
  apply Z.mul_le_mono_nonneg_r; lia.
Qed.

(** The accuracy of a run that returns lies between 0 and the fraction of
    examples that the classifier gets right before the attack, hence
    between 0 and 1. *)
Theorem test_attack_accuracy_bounds `{Torch} `{Globals}
    (model : Tensor -> list Q) (test_loader : list (Tensor * nat))
    (attack_function : string) (attack_args : Args)
    (out : list event) (final_acc : Q) (advs : list adv_entry) :
  test_attack model test_loader attack_function attack_args
  = (out, Return (final_acc, advs)) ->
  (0 <= final_acc)%Q /\
  (final_acc
   <= Z.of_nat (attacked_count model test_loader)
      # Pos.of_nat (length test_loader))%Q /\
  (final_acc <= 1)%Q.
Proof.
  intros Hret.
  apply test_attack_with_accuracy in Hret as [Hne ->].
  assert (Hlen : length test_loader <> 0%nat)
    by (destruct test_loader; [contradiction | discriminate]).
  destruct (robust_le_attacked
              (fun batch => denormalize batch default_mean default_std)
              model attack_function attack_args test_loader) as [Hra Hal].
  split; [|split].
  - unfold Qle. cbn [Qnum Qden]. lia.
  - apply fraction_le; assumption.
  - eapply Qle_trans; [apply (fraction_le _ (length test_loader)); lia|].
    unfold Qle. cbn [Qnum Qden]. lia.
Qed.

Lemma test_attack_accuracy_bounds_witness :
  (0 <= 1 # 2)%Q /\
  (1 # 2 <= Z.of_nat (attacked_count Examples.threshold_model
                                     Examples.two_examples)
            # Pos.of_nat (length Examples.two_examples))%Q /\
  (1 # 2 <= 1)%Q.
Proof.
  exact (test_attack_accuracy_bounds (H := Examples.ones_torch)
           (H0 := Examples.str_globals) Examples.threshold_model
           Examples.two_examples "pgd" Examples.pgd_args _ _ _ eq_refl).
Defined.

Section EvaluatorBranches.
Context `{Torch} `{Globals}.
Variables (denorm : Tensor -> Tensor) (model : Tensor -> list Q).
Variables (attack_function : string) (attack_args : Args).

Lemma attack_branch_pgd_idle (data : Tensor) (target : nat)
    (bound : option Tensor) (alpha epsilon : Q) (num_iter : Z) :
  attack_function <> FGSM -> attack_function = PGD ->
  ALPHA attack_args = Some alpha -> EPSILON attack_args = Some epsilon ->
  NUM_ITER attack_args = Some num_iter -> (num_iter <= 0)%Z ->
  attack_branch denorm model data target attack_function attack_args bound
  = ([], Return (Some data)).
Proof.
  intros HF HP Ha He Hn Hle. unfold attack_branch.
  destruct (decide (attack_function = FGSM)); [contradiction|].
  destruct (decide (attack_function = PGD)); [|contradiction].
  unfold pgd_attack. rewrite Ha, He, Hn. cbn.
  replace (Z.to_nat num_iter) with 0%nat by lia. reflexivity.
Qed.

Lemma pgd_idle_counts (alpha epsilon : Q) (num_iter : Z)
    (test_loader : list (Tensor * nat)) :
  attack_function <> FGSM -> attack_function = PGD ->
  ALPHA attack_args = Some alpha -> EPSILON attack_args = Some epsilon ->
  NUM_ITER attack_args = Some num_iter -> (num_iter <= 0)%Z ->
  robust_count denorm model attack_function attack_args test_loader
  = attacked_count model test_loader /\
  failures denorm model attack_function attack_args test_loader = [].
Proof.
  intros HF HP Ha He Hn Hle.
  induction test_loader as [|[data target] rest [IH1 IH2]].
  - split; reflexivity.
  - rewrite robust_count_cons, attacked_count_cons, failures_cons, IH1, IH2.
    unfold failure_entry, robust, attacked. cbn [fst snd].
    rewrite (attack_branch_pgd_idle data target None alpha epsilon num_iter
               HF HP Ha He Hn Hle).
    cbn [fst snd].
    destruct (decide (argmax (model data) = target)) as [Heq|Hne].
    + rewrite (bool_decide_eq_true_2 _ Heq).
      destruct (decide (argmax (model data) = target)); [|contradiction].
      split; reflexivity.
    + rewrite (bool_decide_eq_false_2 _ Hne). split; reflexivity.
Qed.

Lemma test_attack_with_result (test_loader : list (Tensor * nat)) :
  runnable attack_function attack_args -> test_loader <> [] ->
  test_attack_with denorm model test_loader attack_function attack_args
  = ([PrintSummary attack_function attack_args
        (robust_count denorm model attack_function attack_args test_loader)
        (length test_loader)],
     Return (Z.of_nat (robust_count denorm model attack_function attack_args
                                    test_loader)
             # Pos.of_nat (length test_loader),
             take 5 (failures denorm model attack_function attack_args
                              test_loader))).
Proof.
  intros Hrun Hne. unfold test_attack_with.
  destruct (test_loop_runnable denorm model attack_function attack_args
              test_loader Hrun
              {| correct := 0; adv_examples := []; perturbed_data := None |} [])
    as [st Hloop].
  rewrite Hloop. cbn [fst snd].
  destruct (decide (length test_loader = 0)%nat) as [Hz|Hnz].
  { destruct test_loader; [contradiction | discriminate]. }
  rewrite (test_loop_known_correct denorm model attack_function attack_args
             test_loader (runnable_known _ _ Hrun) _ _ _ _ Hloop).
  apply (test_loop_failures denorm model attack_function attack_args
           test_loader) in Hloop as ->;
    [reflexivity | right; right; reflexivity | simpl; lia].
Qed.

Lemma failures_fgsm (epsilon : Q) (test_loader : list (Tensor * nat)) :
  attack_function = FGSM -> EPSILON attack_args = Some epsilon ->
  Forall (fun e : adv_entry =>
            exists data target,
              (data, target) ∈ test_loader /\
              let perturbed :=
                fgsm_attack (denorm data)
                  (input_grad (fun x => nll_loss (model x) target) data)
                  epsilon in
              argmax (model perturbed) <> target /\
              e = (target, argmax (model perturbed), denorm data,
                   denorm perturbed))
         (failures denorm model attack_function attack_args test_loader).
Proof.
  intros HF He. apply Forall_forall. intros e Hin.
  apply list_elem_of_omap in Hin as ([data target] & Hex & Hfail).
  exists data, target. split; [exact Hex|].
  unfold failure_entry, attacked, attack_branch in Hfail. cbn [fst snd] in Hfail.
  destruct (decide (attack_function = FGSM)); [|contradiction].
  rewrite He in Hfail. cbn in Hfail.
  destruct (bool_decide (argmax (model data) = target)) eqn:Hatt;
    [|discriminate].
  apply bool_decide_eq_true_1 in Hatt.
  destruct (decide (argmax (model _) = target)) as [|Hne]; [discriminate|].
  injection Hfail as <-. rewrite Hatt. split; [exact Hne|reflexivity].
Qed.

End EvaluatorBranches.

(** With the PGD selector and a count of iterations that is zero or
    negative no example is perturbed: the accuracy is the fraction of
    examples that the classifier gets right and no example is recorded. *)
Theorem test_attack_pgd_idle `{Torch} `{Globals}
    (model : Tensor -> list Q) (test_loader : list (Tensor * nat))
    (attack_function : string) (alpha epsilon : Q) (num_iter : Z) :
  let attack_args := {| ALPHA := Some alpha; EPSILON := Some epsilon;
                        NUM_ITER := Some num_iter |} in
  attack_function <> FGSM -> attack_function = PGD ->
  (num_iter <= 0)%Z -> test_loader <> [] ->
  test_attack model test_loader attack_function attack_args
  = ([PrintSummary attack_function attack_args
        (attacked_count model test_loader) (length test_loader)],
     Return (Z.of_nat (attacked_count model test_loader)
             # Pos.of_nat (length test_loader), [])).
Proof.
  intros attack_args HF HP Hle Hne. unfold test_attack.
  rewrite test_attack_with_result; [|right; repeat split; eauto|exact Hne].
  destruct (pgd_idle_counts
              (fun batch => denormalize batch default_mean default_std)
              model attack_function attack_args alpha epsilon num_iter
              test_loader HF HP eq_refl eq_refl eq_refl Hle) as [-> ->].
  reflexivity.
Qed.

Lemma test_attack_pgd_idle_witness :
  test_attack (H := Examples.ones_torch) (H0 := Examples.str_globals)
    Examples.threshold_model Examples.two_examples "pgd"
    {| ALPHA := Some 1%Q; EPSILON := Some 1%Q; NUM_ITER := Some 0%Z |}
  = ([PrintSummary "pgd"
        {| ALPHA := Some 1%Q; EPSILON := Some 1%Q; NUM_ITER := Some 0%Z |}
        1 2],
     Return (1 # 2, [])).
Proof.
  refine (test_attack_pgd_idle (H := Examples.ones_torch)
            (H0 := Examples.str_globals) Examples.threshold_model
            Examples.two_examples "pgd" 1 1 0 _ _ _ _); discriminate || reflexivity.
Defined.

(** With the FGSM selector every recorded entry stores the perturbed
    example denormalised a second time: the perturbed example is built from
    the denormalised input, and [denormalize] is applied to it again when
    it is recorded. *)
Theorem test_attack_fgsm_entries `{Torch} `{Globals}
    (model : Tensor -> list Q) (test_loader : list (Tensor * nat))
    (attack_function : string) (attack_args : Args) (epsilon : Q)
    (out : list event) (final_acc : Q) (advs : list adv_entry) :
  let denorm := fun batch => denormalize batch default_mean default_std in
  attack_function = FGSM -> EPSILON attack_args = Some epsilon ->
  test_attack model test_loader attack_function attack_args
  = (out, Return (final_acc, advs)) ->
  Forall (fun e : adv_entry =>
            exists data target,
              (data, target) ∈ test_loader /\
              let perturbed :=
                fgsm_attack (denorm data)
                  (input_grad (fun x => nll_loss (model x) target) data)
                  epsilon in
              argmax (model perturbed) <> target /\
              e = (target, argmax (model perturbed), denorm data,
                   denorm perturbed))
         advs.
Proof.
  intros denorm HF He Hret. unfold test_attack in Hret.
  rewrite test_attack_with_result in Hret.
  - injection Hret as _ _ <-. apply Forall_take.
    apply failures_fgsm; assumption.
  - left. split; [exact HF | eauto].
  - intros ->. discriminate Hret.
Qed.

Lemma test_attack_fgsm_entries_witness :
  Forall (fun e : adv_entry =>
            exists data target,
              (data, target) ∈ Examples.near_threshold /\
              let perturbed :=
                fgsm_attack (denormalize data default_mean default_std)
                  (input_grad (Torch := Examples.ones_torch)
                     (fun x => nll_loss (Examples.threshold_model x) target)
                     data)
                  0 in
              argmax (Examples.threshold_model perturbed) <> target /\
              e = (target, argmax (Examples.threshold_model perturbed),
                   denormalize data default_mean default_std,
                   denormalize perturbed default_mean default_std))
         (take 5 (failures (H := Examples.ones_torch)
                    (H0 := Examples.str_globals)
                    (fun batch => denormalize batch default_mean default_std)
                    Examples.threshold_model "fgsm" Examples.fgsm_args
                    Examples.near_threshold)).
Proof.
  exact (test_attack_fgsm_entries (H := Examples.ones_torch)
           (H0 := Examples.str_globals) Examples.threshold_model
           Examples.near_threshold "fgsm" Examples.fgsm_args 0 _ _ _
           eq_refl eq_refl eq_refl).
Defined.

(** * The evaluation of the multi-layer perceptron *)

Section Accuracy.
Import TrainMLP.

Lemma argmax_from_bounded (l : list Q) (best_i : nat) (best : Q) (i : nat) :
  Forall (fun x => (x <= best)%Q) l -> argmax_from best_i best i l = best_i.
Proof.
  revert i. induction l as [|x l IH]; intros i Hall; [reflexivity|].
  apply Forall_cons_1 in Hall as [Hx Hl]. cbn [argmax_from].
  destruct (Qlt_le_dec best x) as [Hlt|_]; [|apply IH, Hl].
  exfalso. apply (Qlt_not_le _ _ Hlt Hx).
Qed.

Lemma indicator_le_one (i : nat) (js : list nat) :
  Forall (fun x => (x <= 1)%Q)
         ((fun j => if decide (i = j) then 1%Q else 0%Q) <$> js).
Proof.
  apply Forall_fmap, Forall_true. intros j. cbn.
  destruct (decide (i = j)); discriminate.
Qed.

Lemma argmax_from_indicator (i m : nat) :
  forall s k best_i,
    (s <= i < s + m)%nat ->
    argmax_from best_i 0 k
      ((fun j => if decide (i = j) then 1%Q else 0%Q) <$> seq s m)
    = (k + (i - s))%nat.
Proof.
  induction m as [|m IH]; intros s k best_i Hi; [lia|].
  cbn [seq fmap list_fmap argmax_from].
  destruct (decide (i = s)) as [->|Hne].
  - destruct (Qlt_le_dec 0 1) as [_|Hle]; [|exfalso; apply Hle; reflexivity].
    rewrite argmax_from_bounded by apply indicator_le_one. lia.
  - destruct (Qlt_le_dec 0 0) as [Hlt|_]; [discriminate Hlt|].
    rewrite IH by lia. lia.
Qed.

(** The largest entry of a row of the identity matrix is at its class. *)
Lemma argmax_unit_row (n i : nat) : (i < n)%nat -> argmax (unit_row n i) = i.
Proof.
  intros Hi. unfold unit_row. destruct n as [|n]; [lia|].
  cbn [seq fmap list_fmap argmax].
  destruct (decide (i = 0)%nat) as [->|Hne].
  - apply argmax_from_bounded, indicator_le_one.
  - rewrite argmax_from_indicator by lia. lia.
Qed.

Lemma eye_lookup (n i : nat) :
  eye n !! i = if decide (i < n)%nat then Some (unit_row n i) else None.
Proof.
  unfold eye. rewrite list_lookup_fmap.
  destruct (decide (i < n)%nat) as [Hi|Hi].
  - rewrite lookup_seq_lt by exact Hi. reflexivity.
  - rewrite lookup_seq_ge by lia. reflexivity.
Qed.

Lemma index_rows_eye (n : nat) (labels : list nat) :
  Forall (fun label => (label < n)%nat) labels ->
  index_rows (eye n) labels = Done (unit_row n <$> labels).
Proof.
  induction 1 as [|label rest Hl _ IH]; [reflexivity|].
  cbn [index_rows]. rewrite eye_lookup.
  destruct (decide (label < n)%nat); [|contradiction].
  rewrite IH. reflexivity.
Qed.


Lemma hits_cons (p : list Q) (label : nat) (predictions : list (list Q))
    (labels : list nat) :
  hits (p :: predictions) (label :: labels)
  = ((if decide (argmax p = label) then 1 else 0) + hits predictions labels)%nat.
Proof.
  unfold hits. cbn [zip zip_with List.filter fst snd].
  destruct (decide (argmax p = label)) as [He|He].
  - rewrite (bool_decide_eq_true_2 _ He). reflexivity.
  - rewrite (bool_decide_eq_false_2 _ He). reflexivity.
Qed.

Lemma hits_le (predictions : list (list Q)) (labels : list nat) :
  (hits predictions labels <= length labels)%nat.
Proof.
  revert labels. induction predictions as [|p predictions IH];
    intros [|label labels]; try (cbn; lia).
  rewrite hits_cons. specialize (IH labels).
  destruct (decide (argmax p = label)); simpl; lia.
Qed.

(** The sum that [accuracy] averages is the number of hits. *)
Lemma total_indicators (n : nat) (predictions : list (list Q))
    (labels : list nat) :
  Forall (fun label => (label < n)%nat) labels ->
  length predictions = length labels ->
  exists s,
    total (zip_with (fun p t => Some (if decide (argmax p = argmax t)
                                      then 1%Q else 0%Q))
                    predictions (unit_row n <$> labels))
    = Some s /\
    (s == inject_Z (Z.of_nat (hits predictions labels)))%Q.
Proof.
  intros Hall. revert predictions.
  induction Hall as [|label rest Hl _ IH]; intros [|p predictions] Hlen;
    try discriminate Hlen.
  - exists 0%Q. split; reflexivity.
  - injection Hlen as Hlen. destruct (IH predictions Hlen) as (s & Hs & Heq).
    exists ((if decide (argmax p = label) then 1 else 0) + s)%Q. split.
    + cbn [fmap list_fmap zip_with total].
      rewrite Hs, (argmax_unit_row n label Hl). reflexivity.
    + rewrite hits_cons, Heq.
      destruct (decide (argmax p = label)).
      * rewrite Nat2Z.inj_add, inject_Z_plus. reflexivity.
      * cbn [Nat.add]. ring.
Qed.

Lemma fraction_inject (a n : nat) :
  n <> 0%nat ->
  (inject_Z (Z.of_nat a) / inject_Z (Z.of_nat n)
   == Z.of_nat a # Pos.of_nat n)%Q.
Proof.
  intros Hn. rewrite (Qmake_Qdiv (Z.of_nat a) (Pos.of_nat n)).
  rewrite <- positive_nat_Z, Nat2Pos.id by exact Hn. reflexivity.
Qed.

Lemma accuracy_one_hot (predictions : list (list Q)) (labels : list nat) :
  Forall (fun label => (label < 10)%nat) labels ->
  length predictions = length labels -> labels <> [] ->
  exists a,
    accuracy predictions (unit_row 10 <$> labels) = Some a /\
    (a == Z.of_nat (hits predictions labels) # Pos.of_nat (length labels))%Q.
Proof.
  intros Hall Hlen Hne. unfold accuracy.
  destruct (total_indicators 10 predictions labels Hall Hlen) as (s & Hs & Heq).
  assert (Hzl : length (zip_with
                          (fun p t => Some (if decide (argmax p = argmax t)
                                            then 1%Q else 0%Q))
                          predictions (unit_row 10 <$> labels))
                = length labels).
  { rewrite length_zip_with, length_fmap. lia. }
  unfold mean.
  destruct (zip_with _ predictions (unit_row 10 <$> labels)) as [|x xs] eqn:Hz.
  { destruct labels; [contradiction | discriminate Hzl]. }
  rewrite Hs. cbn [mbind option_bind]. rewrite Hzl.
  eexists. split; [reflexivity|].
  rewrite Heq. apply fraction_inject.
  destruct labels; [contradiction | discriminate].
Qed.

End Accuracy.

Section Evaluate.
Import TrainMLP.
Variable model : list (list Q) -> list (list Q).

Lemma total_some (accs : list Q) : total (Some <$> accs) = Some (Qsum accs).
Proof.
  induction accs as [|a accs IH]; [reflexivity|].
  cbn [fmap list_fmap total]. rewrite IH. reflexivity.
Qed.

Lemma total_nan (xs : list scalar) : None ∈ xs -> total xs = None.
Proof.
  induction xs as [|x xs IH]; intros Hin; [inversion Hin|].
  apply elem_of_cons in Hin as [<-|Hin]; [reflexivity|].
  cbn [total]. rewrite (IH Hin). destruct x; reflexivity.
Qed.

Lemma Qsum_Qeq (xs ys : list Q) :
  Forall2 Qeq xs ys -> (Qsum xs == Qsum ys)%Q.
Proof.
  induction 1 as [|x y xs ys Hxy _ IH]; [reflexivity|].
  cbn [Qsum foldr]. fold (Qsum xs). fold (Qsum ys). rewrite Hxy, IH.
  reflexivity.
Qed.

Lemma reshape_has_entries (data : list (list (list Q))) :
  has_entries data -> reshape data = Done (List.concat (A := Q) <$> data).
Proof.
  unfold has_entries, reshape. intros Hne.
  destruct (List.concat (List.concat (A := Q) <$> data));
    [contradiction | reflexivity].
Qed.


Lemma batch_accuracies_well_formed (data_loader : list batch) :
  well_formed model data_loader ->
  exists accs,
    batch_accuracies model data_loader = Done (Some <$> accs) /\
    Forall2 Qeq accs (batch_fraction model <$> data_loader).
Proof.
  induction 1 as [|[data labels] rest (Hlen & Hall & Hne & Hdata) _ IH].
  - exists []. split; [reflexivity | constructor].
  - destruct IH as (accs & Hrun & Heq). cbn [fst snd] in *.
    destruct (accuracy_one_hot _ labels Hall Hlen Hne) as (a & Ha & Hfrac).
    exists (a :: accs). split.
    + cbn [batch_accuracies]. rewrite (reshape_has_entries data Hdata).
      cbn [mbind attempt_bind]. rewrite (index_rows_eye 10 labels Hall).
      cbn [mbind attempt_bind]. rewrite Ha, Hrun. reflexivity.
    + constructor; [exact Hfrac | exact Heq].
Qed.




Lemma Qsum_equal_sizes (n : nat) (data_loader : list batch) :
  n <> 0%nat ->
  Forall (fun b : batch => length b.2 = n) data_loader ->
  (Qsum (batch_fraction model <$> data_loader)
   == inject_Z (Z.of_nat (sum_list (batch_hits model <$> data_loader)))
      / inject_Z (Z.of_nat n))%Q.
Proof.
  intros Hn. induction 1 as [|b rest Hb _ IH].
  - cbn. field. intros Hz. apply Hn.
    assert (Hz' : Z.of_nat n = 0%Z)
      by (unfold Qeq in Hz; cbn in Hz; lia).
    lia.
  - cbn [fmap list_fmap Qsum foldr sum_list]. fold (Qsum (batch_fraction model <$> rest)).
    rewrite IH. unfold batch_fraction at 1. rewrite Hb.
    rewrite <- (fraction_inject _ n Hn), Nat2Z.inj_add, inject_Z_plus.
    unfold id. field. intros Hz. apply Hn.
    assert (Hz' : Z.of_nat n = 0%Z)
      by (unfold Qeq in Hz; cbn in Hz; lia).
    lia.
Qed.

End Evaluate.

(** The targets that [evaluate_model] builds from class ids below 10 are
    rows of the identity matrix whose largest entry is at the class id, so
    [accuracy] on them is the fraction of rows of the batch whose largest
    logit is at the class id, a number between 0 and 1; on an empty batch
    it is NaN. *)
Theorem accuracy_counts_hits (predictions : list (list Q))
    (labels : list nat) :
  Forall (fun label => (label < 10)%nat) labels ->
  length predictions = length labels ->
  exists targets,
    TrainMLP.index_rows (TrainMLP.eye 10) labels = TrainMLP.Done targets /\
    Forall2 (fun t label => argmax t = label) targets labels /\
    (labels = [] -> TrainMLP.accuracy predictions targets = None) /\
    (labels <> [] ->
     exists a,
       TrainMLP.accuracy predictions targets = Some a /\
       (a == Z.of_nat (TrainMLP.hits predictions labels)
             # Pos.of_nat (length labels))%Q /\
       (0 <= a <= 1)%Q).
Proof.
  intros Hall Hlen. exists (TrainMLP.unit_row 10 <$> labels).
  split; [apply index_rows_eye, Hall|]. split; [|split].
  - apply Forall2_fmap_l, Forall_Forall2_diag.
    eapply Forall_impl; [exact Hall|]. intros label Hl.
    apply argmax_unit_row, Hl.
  - intros ->. destruct predictions; reflexivity.
  - intros Hne.
    destruct (accuracy_one_hot predictions labels Hall Hlen Hne)
      as (a & Ha & Heq).
    exists a. split; [exact Ha|]. split; [exact Heq|].
    assert (Hn : length labels <> 0%nat)
      by (destruct labels; [contradiction | discriminate]).
    pose proof (hits_le predictions labels) as Hle.
    rewrite Heq. unfold Qle. cbn [Qnum Qden].
    rewrite <- positive_nat_Z, Nat2Pos.id by exact Hn. split; lia.
Qed.

Lemma accuracy_counts_hits_witness :
  exists targets,
    TrainMLP.index_rows (TrainMLP.eye 10) [3%nat; 0%nat]
    = TrainMLP.Done targets /\
    Forall2 (fun t label => argmax t = label) targets [3%nat; 0%nat].
Proof.
  destruct (accuracy_counts_hits [[0%Q; 1%Q]; [1%Q; 0%Q]] [3%nat; 0%nat])
    as (targets & Hrows & Hmax & _).
  - repeat constructor.
  - reflexivity.
  - exists targets. split; assumption.
Defined.

(** On a loader without an empty batch whose class ids are below 10,
    [evaluate_model] returns the mean of the accuracies of the batches,
    each batch weighing the same whatever its size.  When all batches have
    one size this is the fraction of images of the whole loader that the
    model classifies correctly. *)
Theorem evaluate_model_mean_of_batches
    (model : list (list Q) -> list (list Q))
    (data_loader : list TrainMLP.batch) :
  TrainMLP.well_formed model data_loader -> data_loader <> [] ->
  exists a,
    TrainMLP.evaluate_model model data_loader = TrainMLP.Done (Some a) /\
    (a * inject_Z (Z.of_nat (length data_loader))
     == TrainMLP.Qsum (TrainMLP.batch_fraction model <$> data_loader))%Q /\
    (forall n,
       Forall (fun b : TrainMLP.batch => length b.2 = n) data_loader ->
       (a == Z.of_nat (sum_list (TrainMLP.batch_hits model <$> data_loader))
             # Pos.of_nat (length data_loader * n))%Q).
Proof.
  intros Hwf Hne.
  destruct (batch_accuracies_well_formed model data_loader Hwf)
    as (accs & Hrun & Heq).
  assert (Hlen : length accs = length data_loader).
  { apply Forall2_length in Heq. rewrite length_fmap in Heq. exact Heq. }
  assert (Hk : length data_loader <> 0%nat)
    by (destruct data_loader; [contradiction | discriminate]).
  assert (Hkq : ~ (inject_Z (Z.of_nat (length data_loader)) == 0)%Q).
  { intros Hz. unfold Qeq in Hz. cbn in Hz. lia. }
  exists (TrainMLP.Qsum accs / inject_Z (Z.of_nat (length data_loader)))%Q.
  split; [|split].
  - unfold TrainMLP.evaluate_model. rewrite Hrun.
    cbn [mbind TrainMLP.attempt_bind]. unfold TrainMLP.mean.
    destruct accs as [|a accs]; [simpl in Hlen; lia|].
    cbn [fmap list_fmap]. change (Some a :: (Some <$> accs))
      with (Some <$> (a :: accs)).
    rewrite total_some, length_fmap, Hlen. reflexivity.
  - rewrite <- (Qsum_Qeq _ _ Heq). field. exact Hkq.
  - intros n Hsizes.
    assert (Hn : n <> 0%nat).
    { destruct data_loader as [|b rest]; [contradiction|].
      apply Forall_cons_1 in Hsizes as [Hb _].
      apply Forall_cons_1 in Hwf as [(_ & _ & Hb' & _) _].
      destruct (b.2); [contradiction | simpl in Hb; lia]. }
    rewrite (Qsum_Qeq _ _ Heq), (Qsum_equal_sizes model n _ Hn Hsizes).
    rewrite <- fraction_inject by lia.
    rewrite Nat2Z.inj_mul, inject_Z_mult. field. split; [|exact Hkq].
    intros Hz. unfold Qeq in Hz. cbn in Hz. lia.
Qed.

Lemma evaluate_model_mean_of_batches_witness :
  exists a,
    TrainMLP.evaluate_model (fun images => images)
      [([[[0%Q; 1%Q]]], [1%nat]);
       ([[[1%Q; 0%Q]]; [[1%Q; 0%Q]]], [1%nat; 1%nat])]
    = TrainMLP.Done (Some a) /\
    (a * inject_Z 2 == 1)%Q.
Proof.
  destruct (evaluate_model_mean_of_batches (fun images => images)
              [([[[0%Q; 1%Q]]], [1%nat]);
               ([[[1%Q; 0%Q]]; [[1%Q; 0%Q]]], [1%nat; 1%nat])])
    as (a & Hrun & Hmean & _).
  - repeat constructor; discriminate.
  - discriminate.
  - exists a. split; [exact Hrun|]. rewrite Hmean. vm_compute. reflexivity.
Defined.



(** * The training cycle *)

Section NonNegative.
Import TrainMLP.

Lemma total_nonneg (xs : list scalar) :
  Forall (fun x => forall a, x = Some a -> (0 <= a)%Q) xs ->
  forall s, total xs = Some s -> (0 <= s)%Q.
Proof.
  induction 1 as [|x xs Hx _ IH]; intros s Hs.
  - injection Hs as <-. discriminate.
  - cbn [total] in Hs. destruct x as [a|]; [|discriminate Hs].
    destruct (total xs) as [b|]; [|discriminate Hs].
    injection Hs as <-. specialize (Hx a eq_refl). specialize (IH b eq_refl).
    lra.
Qed.

Lemma mean_nonneg (xs : list scalar) :
  Forall (fun x => forall a, x = Some a -> (0 <= a)%Q) xs ->
  forall m, mean xs = Some m -> (0 <= m)%Q.
Proof.
  intros Hall m Hm. unfold mean in Hm.
  destruct xs as [|x xs]; [discriminate Hm|].
  destruct (total (x :: xs)) as [s|] eqn:Hs; [|discriminate Hm].
  injection Hm as <-. apply Qle_shift_div_l.
  - unfold Qlt. cbn. lia.
  - rewrite Qmult_0_l. exact (total_nonneg _ Hall s Hs).
Qed.

Lemma Forall_zip_with_all {A B C : Type} (P : C -> Prop) (f : A -> B -> C)
    (l : list A) (k : list B) :
  (forall x y, P (f x y)) -> Forall P (zip_with f l k).
Proof.
  intros Hf. revert k. induction l as [|x l IH]; intros [|y k];
    cbn; constructor; auto.
Qed.

Lemma accuracy_nonneg (predictions targets : list (list Q)) (a : Q) :
  accuracy predictions targets = Some a -> (0 <= a)%Q.
Proof.
  apply mean_nonneg, Forall_zip_with_all.
  intros p t b Hb. injection Hb as <-.
  destruct (decide (argmax p = argmax t)); discriminate.
Qed.

Lemma batch_accuracies_nonneg (model : list (list Q) -> list (list Q))
    (data_loader : list batch) :
  forall accs,
    batch_accuracies model data_loader = Done accs ->
    Forall (fun x => forall a, x = Some a -> (0 <= a)%Q) accs.
Proof.
  induction data_loader as [|[data labels] rest IH]; intros accs Hrun.
  - injection Hrun as <-. constructor.
  - cbn [batch_accuracies] in Hrun.
    destruct (reshape data) as [rows'|e]; [|discriminate Hrun].
    cbn [mbind attempt_bind] in Hrun.
    destruct (index_rows (eye 10) labels) as [rows|e]; [|discriminate Hrun].
    cbn [mbind attempt_bind] in Hrun.
    destruct (batch_accuracies model rest) as [accs'|e]; [|discriminate Hrun].
    injection Hrun as <-. constructor; [|apply IH; reflexivity].
    intros a. apply accuracy_nonneg.
Qed.

Lemma evaluate_model_nonneg (model : list (list Q) -> list (list Q))
    (data_loader : list batch) (a : Q) :
  evaluate_model model data_loader = Done (Some a) -> (0 <= a)%Q.
Proof.
  unfold evaluate_model. intros Hrun.
  destruct (batch_accuracies model data_loader) as [accs|e] eqn:Haccs;
    [|discriminate Hrun].
  injection Hrun as Hmean.
  exact (mean_nonneg accs (batch_accuracies_nonneg _ _ accs Haccs) a Hmean).
Qed.

End NonNegative.

Section TrainRuns.
Import TrainMLP.
Context {Model : Type}.
Variable forward : Model -> list (list Q) -> list (list Q).
Variable sgd_step : Model -> batch -> Model * scalar.
Variables (init : Model) (cifar10_loader : loaders).

Lemma train_invariant_step (k : nat) (st : train_state (Model := Model))
    (curr : scalar) :
  train_invariant forward sgd_step init cifar10_loader k st ->
  evaluate_model
    (forward (fst (train_batches sgd_step (model st)
                                 (train_set cifar10_loader))))
    (validation_set cifar10_loader) = Done curr ->
  let trained := train_batches sgd_step (model st) (train_set cifar10_loader) in
  let better := ge curr (best_val_accuracy st) in
  train_invariant forward sgd_step init cifar10_loader (S k)
    {| model := fst trained;
       best_model := if better then Some (fst trained) else best_model st;
       best_val_accuracy := if better then curr else best_val_accuracy st;
       val_accuracies := val_accuracies st ++ [curr];
       train_loss := train_loss st ++ [mean (snd trained)] |}.
Proof.
  intros (Hm & Hv & Hl & Hvals & Hbest) Hcurr trained better.
  assert (Hnext : fst trained = model_after sgd_step init cifar10_loader (S k)).
  { unfold trained. rewrite Hm. reflexivity. }
  unfold train_invariant. cbn [model best_model best_val_accuracy
                               val_accuracies train_loss].
  split; [exact Hnext|]. split; [rewrite length_app; simpl; lia|].
  split; [rewrite length_app; simpl; lia|]. split.
  { intros j v Hj. apply lookup_app_Some in Hj as [Hj|[Hge Hj]].
    - apply Hvals, Hj.
    - apply list_lookup_singleton_Some in Hj as [Hj <-].
      replace j with k by lia. rewrite <- Hnext. exact Hcurr. }
  assert (Hold : forall j a,
            (val_accuracies st ++ [curr]) !! j = Some (Some a) ->
            val_accuracies st !! j = Some (Some a) \/
            (j = k /\ curr = Some a)).
  { intros j a Hj. apply lookup_app_Some in Hj as [Hj|[Hge Hj]]; [auto|].
    apply list_lookup_singleton_Some in Hj as [Hj <-]. right. split; [lia|].
    reflexivity. }
  assert (Hnew : (val_accuracies st ++ [curr]) !! k = Some curr).
  { rewrite lookup_app_r by lia. rewrite Hv, Nat.sub_diag. reflexivity. }
  destruct curr as [c|].
  - assert (Hc : (0 <= c)%Q) by (eapply evaluate_model_nonneg, Hcurr).
    destruct (best_model st) as [best|].
    + destruct Hbest as (i & b & Hbi & Hb & Hvi & Hmax).
      assert (Hik : (i < k)%nat)
        by (rewrite <- Hv; eapply lookup_lt_Some, Hvi).
      unfold better. rewrite Hb. cbn [ge].
      destruct (Qlt_le_dec c b) as [Hlt|Hle].
      * exists i, b. split; [exact Hbi|]. split; [reflexivity|].
        split; [rewrite lookup_app_l by lia; exact Hvi|].
        intros j a Hj. destruct (Hold j a Hj) as [Hj'|[-> Ha]].
        -- apply Hmax, Hj'.
        -- injection Ha as <-. split; [apply Qlt_le_weak, Hlt|].
           intros _. exact Hlt.
      * exists k, c. split; [exact Hnext|]. split; [reflexivity|].
        split; [exact Hnew|].
        intros j a Hj. destruct (Hold j a Hj) as [Hj'|[-> Ha]].
        -- destruct (Hmax j a Hj') as [Hab _]. split; [lra|].
           intros Hkj. apply lookup_lt_Some in Hj'. lia.
        -- injection Ha as <-. split; [apply Qle_refl | lia].
    + destruct Hbest as [Hb Hnan]. unfold better. rewrite Hb. cbn [ge].
      destruct (Qlt_le_dec c 0) as [Hlt|_]; [lra|].
      exists k, c. split; [exact Hnext|]. split; [reflexivity|].
      split; [exact Hnew|].
      intros j a Hj. destruct (Hold j a Hj) as [Hj'|[-> Ha]].
      * rewrite Forall_lookup in Hnan. discriminate (Hnan j _ Hj').
      * injection Ha as <-. split; [apply Qle_refl | lia].
  - unfold better. cbn [ge].
    destruct (best_model st) as [best|].
    + destruct Hbest as (i & b & Hbi & Hb & Hvi & Hmax).
      assert (Hik : (i < k)%nat)
        by (rewrite <- Hv; eapply lookup_lt_Some, Hvi).
      exists i, b. split; [exact Hbi|]. split; [exact Hb|].
      split; [rewrite lookup_app_l by lia; exact Hvi|].
      intros j a Hj. destruct (Hold j a Hj) as [Hj'|[_ Ha]];
        [apply Hmax, Hj' | discriminate Ha].
    + destruct Hbest as [Hb Hnan]. split; [exact Hb|].
      apply Forall_app. split; [exact Hnan|]. repeat constructor.
Qed.

Lemma epochs_loop_invariant (n : nat) :
  forall k st st',
    train_invariant forward sgd_step init cifar10_loader k st ->
    epochs_loop forward sgd_step n cifar10_loader st = Done st' ->
    train_invariant forward sgd_step init cifar10_loader (k + n) st'.
Proof.
  induction n as [|n IH]; intros k st st' Hinv Hrun.
  - injection Hrun as <-. rewrite Nat.add_0_r. exact Hinv.
  - cbn [epochs_loop] in Hrun.
    destruct (evaluate_model _ (validation_set cifar10_loader))
      as [curr|e] eqn:Hcurr; [|discriminate Hrun].
    cbn [mbind attempt_bind] in Hrun.
    replace (k + S n)%nat with (S k + n)%nat by lia.
    eapply IH; [|exact Hrun].
    apply (train_invariant_step k st curr Hinv Hcurr).
Qed.

Lemma train_invariant_start :
  train_invariant forward sgd_step init cifar10_loader 0
    {| model := init; best_model := None; best_val_accuracy := Some 0%Q;
       val_accuracies := []; train_loss := [] |}.
Proof.
  unfold train_invariant. cbn. repeat split; try constructor.
  intros j v Hj. inversion Hj.
Qed.

(** Without a validation set every epoch logs NaN and no network is ever
    selected. *)
Lemma epochs_loop_no_validation (n : nat) :
  validation_set cifar10_loader = [] ->
  forall st, best_model st = None ->
    exists st', epochs_loop forward sgd_step n cifar10_loader st = Done st' /\
                best_model st' = None.
Proof.
  intros Hval. induction n as [|n IH]; intros st Hnone.
  - exists st. split; [reflexivity | exact Hnone].
  - cbn [epochs_loop]. rewrite Hval. cbn.
    apply IH. cbn. exact Hnone.
Qed.

End TrainRuns.

(** [train] ends in [AttributeError], raised by [best_model.eval()] on
    [None], when the number of epochs is zero or negative and when the
    validation loader is empty: no epoch then selects a network. *)
Theorem train_needs_validation_signal {Model : Type}
    (forward : Model -> list (list Q) -> list (list Q))
    (sgd_step : Model -> TrainMLP.batch -> Model * option Q)
    (init : Model) (epochs : Z) (cifar10_loader : TrainMLP.loaders) :
  (epochs <= 0)%Z \/ TrainMLP.validation_set cifar10_loader = [] ->
  TrainMLP.train forward sgd_step init epochs cifar10_loader
  = TrainMLP.Failed TrainMLP.AttributeError.
Proof.
  intros Hcase. unfold TrainMLP.train.
  destruct Hcase as [Hle|Hval].
  - replace (Z.to_nat epochs) with 0%nat by lia. reflexivity.
  - destruct (epochs_loop_no_validation forward sgd_step cifar10_loader
                (Z.to_nat epochs) Hval
                {| TrainMLP.model := init; TrainMLP.best_model := None;
                   TrainMLP.best_val_accuracy := Some 0%Q;
                   TrainMLP.val_accuracies := [];
                   TrainMLP.train_loss := [] |} eq_refl)
      as (st' & Hrun & Hnone).
    rewrite Hrun. cbn [mbind TrainMLP.attempt_bind]. rewrite Hnone.
    reflexivity.
Qed.

Lemma train_needs_validation_signal_witness :
  TrainMLP.train (Model := nat) (fun _ images => images)
    (fun m _ => (S m, Some 0%Q)) 0%nat 3
    {| TrainMLP.train_set := []; TrainMLP.validation_set := [];
       TrainMLP.test_set := [] |}
  = TrainMLP.Failed TrainMLP.AttributeError.
Proof.
  apply (train_needs_validation_signal (Model := nat)).
  right. reflexivity.
Defined.

(** When [train] returns, it has logged one validation accuracy and one
    training loss per epoch, the accuracy of epoch [j] being that of the
    network after [j + 1] epochs; the network it returns is the one after
    the last epoch whose validation accuracy no other epoch exceeds (of
    equal accuracies the later epoch wins, and NaN is never selected), and
    the test accuracy is that of this network. *)
Theorem train_returns_best {Model : Type}
    (forward : Model -> list (list Q) -> list (list Q))
    (sgd_step : Model -> TrainMLP.batch -> Model * option Q)
    (init : Model) (epochs : Z) (cifar10_loader : TrainMLP.loaders)
    (best : Model) (vals : list (option Q)) (test_accuracy : option Q)
    (losses : list (option Q)) :
  TrainMLP.train forward sgd_step init epochs cifar10_loader
  = TrainMLP.Done (best, vals, test_accuracy, losses) ->
  length vals = Z.to_nat epochs /\
  length losses = Z.to_nat epochs /\
  (forall j v,
     vals !! j = Some v ->
     TrainMLP.evaluate_model
       (forward (TrainMLP.model_after sgd_step init cifar10_loader (S j)))
       (TrainMLP.validation_set cifar10_loader) = TrainMLP.Done v) /\
  TrainMLP.evaluate_model (forward best) (TrainMLP.test_set cifar10_loader)
  = TrainMLP.Done test_accuracy /\
  exists i b,
    best = TrainMLP.model_after sgd_step init cifar10_loader (S i) /\
    vals !! i = Some (Some b) /\
    forall j a, vals !! j = Some (Some a) ->
                (a <= b)%Q /\ ((i < j)%nat -> (a < b)%Q).
Proof.
  unfold TrainMLP.train. intros Hrun.
  destruct (TrainMLP.epochs_loop forward sgd_step (Z.to_nat epochs)
              cifar10_loader _) as [st|e] eqn:Hloop; [|discriminate Hrun].
  cbn [mbind TrainMLP.attempt_bind] in Hrun.
  apply (epochs_loop_invariant forward sgd_step init cifar10_loader
           (Z.to_nat epochs) 0) in Hloop;
    [|apply train_invariant_start].
  destruct Hloop as (_ & Hv & Hl & Hvals & Hbest).
  destruct (TrainMLP.best_model st) as [m|]; [|discriminate Hrun].
  destruct (TrainMLP.evaluate_model (forward m) _) as [t|e] eqn:Htest;
    [|discriminate Hrun].
  cbn [mbind TrainMLP.attempt_bind] in Hrun.
  injection Hrun as -> <- <- <-.
  destruct Hbest as (i & b & Hbi & _ & Hvi & Hmax).
  repeat split; try assumption.
  exists i, b. repeat split; try assumption; apply (Hmax j a); assumption.
Qed.

Lemma train_returns_best_witness :
  exists i b,
    2%nat
    = TrainMLP.model_after (fun (m : nat) (_ : TrainMLP.batch)
                            => (S m, Some 0%Q))
        0%nat
        {| TrainMLP.train_set := [([], [])];
           TrainMLP.validation_set := [([[[0%Q; 1%Q]]], [1%nat])];
           TrainMLP.test_set := [([[[1%Q; 0%Q]]], [1%nat])] |}
        (S i) /\
    [Some (1 / 1)%Q; Some (1 / 1)%Q] !! i = Some (Some b).
Proof.
  destruct (train_returns_best (Model := nat) (fun _ images => images)
              (fun m _ => (S m, Some 0%Q)) 0%nat 2
              {| TrainMLP.train_set := [([], [])];
                 TrainMLP.validation_set := [([[[0%Q; 1%Q]]], [1%nat])];
                 TrainMLP.test_set := [([[[1%Q; 0%Q]]], [1%nat])] |}
              2%nat [Some (1 / 1)%Q; Some (1 / 1)%Q] (Some (0 / 1)%Q)
              [Some (0 / 1)%Q; Some (0 / 1)%Q] eq_refl)
    as (_ & _ & _ & _ & i & b & Hbest & Hvi & _).
  exists i, b. split; assumption.
Defined.

(** * Further properties of the sampling routine and of [denormalize] *)

(** Where the standard deviations are all zero, and where the noise drawn
    is all zero under standard deviations that are not negative,
    [sample_reparameterize] returns the mean, entry by entry. *)
Theorem sample_reparameterize_degenerate (mean std epsilon : list Q) :
  length std = length mean -> length epsilon = length mean ->
  Forall (fun s => (0 <= s)%Q) std ->
  Forall (fun s => (s == 0)%Q) std \/ Forall (fun e => (e == 0)%Q) epsilon ->
  exists z,
    sample_reparameterize mean std epsilon = Return z /\
    Forall2 Qeq z mean.
Proof.
  intros Hstd Heps Hpos Hzero. unfold sample_reparameterize.
  destruct (any_negative std) eqn:Hany.
  { apply any_negative_spec in Hany as (s & Hin & Hs).
    rewrite Forall_forall in Hpos. specialize (Hpos s Hin). lra. }
  eexists. split; [reflexivity|].
  apply Forall2_same_length_lookup. split.
  - rewrite !length_zip_with. lia.
  - intros i z m Hz Hm.
    rewrite !lookup_zip_with, Hm in Hz. cbn in Hz.
    destruct (std !! i) as [s|] eqn:Hs; [|discriminate Hz]. cbn in Hz.
    destruct (epsilon !! i) as [e|] eqn:He; [|discriminate Hz].
    injection Hz as <-.
    destruct Hzero as [Hz0|Hz0]; rewrite Forall_lookup in Hz0.
    + rewrite (Hz0 i s Hs). ring.
    + rewrite (Hz0 i e He). ring.
Qed.

Lemma sample_reparameterize_degenerate_witness :
  exists z,
    sample_reparameterize [1%Q; 2%Q] [0%Q; 0%Q] [5%Q; 7%Q] = Return z /\
    Forall2 Qeq z [1%Q; 2%Q].
Proof.
  apply sample_reparameterize_degenerate.
  - reflexivity.
  - reflexivity.
  - repeat constructor; discriminate.
  - left. repeat constructor.
Defined.

Lemma entry_denormalize (batch : Tensor) (mean std : list Q) (c i : nat) :
  entry (denormalize batch mean std) c i
  = (x ← entry batch c i; a ← mean !! c; b ← std !! c; Some (x * b + a)%Q).
Proof.
  unfold entry, denormalize. rewrite !lookup_zip_with.
  destruct (batch !! c) as [plane|]; cbn; [|reflexivity].
  destruct (mean !! c) as [a|]; cbn.
  - destruct (std !! c) as [b|]; cbn.
    + rewrite list_lookup_fmap. destruct (plane !! i); reflexivity.
    + destruct (plane !! i); reflexivity.
  - destruct (plane !! i); reflexivity.
Qed.

Lemma shape_denormalize (batch : Tensor) (mean std : list Q) :
  length mean = length batch -> length std = length batch ->
  shape (denormalize batch mean std) = shape batch.
Proof.
  unfold shape, denormalize. intros Hm Hs.
  apply list_eq. intros c.
  rewrite !list_lookup_fmap, !lookup_zip_with.
  destruct (batch !! c) as [plane|] eqn:Hc; cbn; [|reflexivity].
  apply lookup_lt_Some in Hc.
  destruct (lookup_lt_is_Some_2 mean c) as [a ->]; [lia|].
  destruct (lookup_lt_is_Some_2 std c) as [b ->]; [lia|].
  cbn. rewrite length_fmap. reflexivity.
Qed.

(** With one mean and one std per channel [denormalize] keeps the shape
    of the batch and maps the entry [x] of channel [c] to
    [x * std[c] + mean[c]]; denormalising twice, as [test_attack] does with
    the perturbed example of the FGSM attack, is denormalising once with
    the std [s1 * s2] and the mean [m1 * s2 + m2]. *)
Theorem denormalize_twice (batch : Tensor) (mean1 std1 mean2 std2 : list Q) :
  length mean1 = length batch -> length std1 = length batch ->
  length mean2 = length batch -> length std2 = length batch ->
  shape (denormalize (denormalize batch mean1 std1) mean2 std2) = shape batch /\
  forall c i x m1 s1 m2 s2,
    entry batch c i = Some x ->
    mean1 !! c = Some m1 -> std1 !! c = Some s1 ->
    mean2 !! c = Some m2 -> std2 !! c = Some s2 ->
    entry (denormalize batch mean1 std1) c i = Some (x * s1 + m1)%Q /\
    exists y,
      entry (denormalize (denormalize batch mean1 std1) mean2 std2) c i
      = Some y /\
      (y == x * (s1 * s2) + (m1 * s2 + m2))%Q.
Proof.
  intros Hm1 Hs1 Hm2 Hs2. split.
  - rewrite shape_denormalize; [apply shape_denormalize; assumption| |].
    + unfold denormalize. rewrite !length_zip_with. lia.
    + unfold denormalize. rewrite !length_zip_with. lia.
  - intros c i x m1 s1 m2 s2 Hx Ha1 Hb1 Ha2 Hb2.
    assert (H1 : entry (denormalize batch mean1 std1) c i
                 = Some (x * s1 + m1)%Q).
    { rewrite entry_denormalize, Hx. cbn. rewrite Ha1. cbn. rewrite Hb1.
      reflexivity. }
    split; [exact H1|]. eexists. split.
    + rewrite entry_denormalize, H1. cbn. rewrite Ha2. cbn. rewrite Hb2.
      reflexivity.
    + ring.
Qed.

Lemma denormalize_twice_witness :
  shape (denormalize (denormalize [[1%Q; 2%Q]] [1 # 2] [2%Q]) [1%Q] [3%Q])
  = shape [[1%Q; 2%Q]].
Proof.
  apply (denormalize_twice [[1%Q; 2%Q]] [1 # 2] [2%Q] [1%Q] [3%Q]);
    reflexivity.
Defined.

(** * The cap on the recorded examples *)

Section Capped.
Context `{Torch} `{Globals}.
Variables (denorm : Tensor -> Tensor) (model : Tensor -> list Q).
Variables (attack_function : string) (attack_args : Args).

(** What [failure_entry] holds: the example is attacked, the attack
    returns a perturbed example that is classified otherwise, and the
    entry is built from that example. *)
Lemma failure_entry_spec (ex : Tensor * nat) (e : adv_entry) :
  failure_entry denorm model attack_function attack_args ex = Some e <->
  argmax (model ex.1) = ex.2 /\
  exists perturbed,
    snd (attack_branch denorm model ex.1 ex.2 attack_function attack_args None)
    = Return (Some perturbed) /\
    argmax (model perturbed) <> ex.2 /\
    e = (ex.2, argmax (model perturbed), denorm ex.1, denorm perturbed).
Proof.
  unfold failure_entry, attacked. split.
  - destruct (bool_decide_reflect (argmax (model ex.1) = ex.2)) as [Heq|Hne];
      [|discriminate].
    destruct (snd (attack_branch denorm model ex.1 ex.2 attack_function
                                 attack_args None))
      as [[perturbed|]|err]; try discriminate.
    destruct (decide (argmax (model perturbed) = ex.2)) as [Hr|Hr];
      [discriminate|].
    intros He. injection He as <-. split; [exact Heq|].
    exists perturbed. rewrite Heq. repeat split. exact Hr.
  - intros (Heq & perturbed & Hb & Hne & ->).
    rewrite (bool_decide_eq_true_2 _ Heq), Hb.
    destruct (decide (argmax (model perturbed) = ex.2)); [contradiction|].
    rewrite Heq. reflexivity.
Qed.

Lemma failures_app (seen rest : list (Tensor * nat)) :
  failures denorm model attack_function attack_args (seen ++ rest)
  = failures denorm model attack_function attack_args seen
    ++ failures denorm model attack_function attack_args rest.
Proof. unfold failures. apply omap_app. Qed.

Lemma take_snoc_cap {A : Type} (n : nat) (l : list A) (e : A) :
  (length l <= n)%nat ->
  take n (l ++ [e]) = if decide (length l < n)%nat then l ++ [e] else l.
Proof.
  intros Hle. destruct (decide (length l < n)%nat) as [Hlt|Hge].
  - apply take_ge. rewrite length_app. simpl. lia.
  - rewrite take_app_le by lia. apply take_ge. lia.
Qed.

(** From the initial state, a run over a prefix ends with the first five
    failures of the prefix. *)
Lemma test_loop_from_start (seen : list (Tensor * nat)) (out : list event)
    (st : locals) :
  test_loop denorm model attack_function attack_args seen
    {| correct := 0; adv_examples := []; perturbed_data := None |} []
  = (out, Return st) ->
  adv_examples st
  = take 5 (failures denorm model attack_function attack_args seen) /\
  (length (adv_examples st) <= 5)%nat.
Proof.
  intros Hrun.
  apply test_loop_failures in Hrun;
    [| right; right; reflexivity | simpl; lia].
  simpl in Hrun. split; [exact Hrun|].
  rewrite Hrun, length_take. lia.
Qed.

(** One more example: its entry is appended below the cap, and only
    there. *)
Lemma test_loop_one_more (seen : list (Tensor * nat)) (ex : Tensor * nat)
    (out out' : list event) (st st' : locals) :
  test_loop denorm model attack_function attack_args seen
    {| correct := 0; adv_examples := []; perturbed_data := None |} []
  = (out, Return st) ->
  test_loop denorm model attack_function attack_args (seen ++ [ex])
    {| correct := 0; adv_examples := []; perturbed_data := None |} []
  = (out', Return st') ->
  adv_examples st'
  = match failure_entry denorm model attack_function attack_args ex with
    | Some e =>
        if decide (length (adv_examples st) < 5)%nat
        then adv_examples st ++ [e] else adv_examples st
    | None => adv_examples st
    end.
Proof.
  intros Hrun Hrun'.
  destruct (test_loop_from_start seen out st Hrun) as [Hs Hl].
  destruct (test_loop_from_start (seen ++ [ex]) out' st' Hrun') as [Hs' _].
  rewrite Hs', failures_app, <- take_take_app, <- Hs, failures_cons.
  destruct (failure_entry denorm model attack_function attack_args ex)
    as [e|].
  - apply take_snoc_cap, Hl.
  - change (failures denorm model attack_function attack_args [])
      with (@nil adv_entry).
    rewrite app_nil_r. apply take_ge, Hl.
Qed.

End Capped.

(** C9.  [adv_examples] never holds more than 5 entries, and below that
    number every successful attack is recorded.  After every prefix of the
    loader the list is the first five of the successful attacks on the
    prefix, in the order of the loader.  An iteration appends the entry of
    its example exactly when the example is attacked, the attack succeeds
    and the list holds fewer than 5 entries; otherwise it leaves the list
    as it is.  The entry of a successful attack is the tuple of the label,
    the adversarial prediction, the original example and the example that
    the attack returned, both examples as [denormalize] renders them.  The
    list that [test_attack] returns is the one after the whole loader. *)
Theorem adv_examples_capped `{Torch} `{Globals} (model : Tensor -> list Q)
    (test_loader : list (Tensor * nat)) (attack_function : string)
    (attack_args : Args) :
  let denorm := fun batch => denormalize batch default_mean default_std in
  let start := {| correct := 0; adv_examples := []; perturbed_data := None |} in
  (forall seen rest out st,
     test_loader = seen ++ rest ->
     test_loop denorm model attack_function attack_args seen start []
     = (out, Return st) ->
     adv_examples st
     = take 5 (failures denorm model attack_function attack_args seen) /\
     (length (adv_examples st) <= 5)%nat) /\
  (forall seen ex rest out st out' st',
     test_loader = seen ++ ex :: rest ->
     test_loop denorm model attack_function attack_args seen start []
     = (out, Return st) ->
     test_loop denorm model attack_function attack_args (seen ++ [ex]) start []
     = (out', Return st') ->
     adv_examples st'
     = match failure_entry denorm model attack_function attack_args ex with
       | Some e =>
           if decide (length (adv_examples st) < 5)%nat
           then adv_examples st ++ [e] else adv_examples st
       | None => adv_examples st
       end) /\
  (forall ex e,
     failure_entry denorm model attack_function attack_args ex = Some e <->
     argmax (model ex.1) = ex.2 /\
     exists perturbed,
       snd (attack_branch denorm model ex.1 ex.2 attack_function attack_args
                          None)
       = Return (Some perturbed) /\
       argmax (model perturbed) <> ex.2 /\
       e = (ex.2, argmax (model perturbed), denorm ex.1, denorm perturbed)) /\
  (forall out final_acc advs,
     test_attack model test_loader attack_function attack_args
     = (out, Return (final_acc, advs)) ->
     advs
     = take 5 (failures denorm model attack_function attack_args test_loader) /\
     (length advs <= 5)%nat).
Proof.
  intros denorm start. split; [|split; [|split]].
  - intros seen rest out st _ Hrun.
    exact (test_loop_from_start denorm model attack_function attack_args
             seen out st Hrun).
  - intros seen ex rest out st out' st' _ Hrun Hrun'.
    exact (test_loop_one_more denorm model attack_function attack_args
             seen ex out out' st st' Hrun Hrun').
  - intros ex e.
    exact (failure_entry_spec denorm model attack_function attack_args ex e).
  - intros out final_acc advs. unfold test_attack, test_attack_with.
    fold denorm. fold start.
    destruct (test_loop denorm model attack_function attack_args test_loader
                start []) as [out0 [st|e]] eqn:Hrun; cbn [fst snd];
      [|discriminate].
    destruct (decide (length test_loader = 0)%nat); [discriminate|].
    intros Hret. injection Hret as _ _ <-.
    exact (test_loop_from_start denorm model attack_function attack_args
             test_loader out0 st Hrun).
Qed.

(** Seven successful attacks: the accuracy is 0 of 7 and the five entries
    kept are those of the first five images. *)
Lemma adv_examples_capped_witness :
  exists advs,
    snd (test_attack (H := Examples.ones_torch) (H0 := Examples.str_globals)
           Examples.threshold_model Examples.seven_failures "fgsm"
           Examples.fgsm_args)
    = Return (0 # 7, advs) /\
    length advs = 5%nat /\
    (fun e : adv_entry => e.1.2) <$> advs
    = (fun k => denormalize (Examples.dim_image k) default_mean default_std)
        <$> [1; 2; 3; 4; 5]%Z /\
    advs
    = take 5 (failures (H := Examples.ones_torch) (H0 := Examples.str_globals)
                (fun batch => denormalize batch default_mean default_std)
                Examples.threshold_model "fgsm" Examples.fgsm_args
                Examples.seven_failures).
Proof.
  eexists. split; [reflexivity|]. split; [reflexivity|].
  split; [reflexivity|].
  exact (proj1 (proj2 (proj2 (proj2
           (adv_examples_capped (H := Examples.ones_torch)
              (H0 := Examples.str_globals) Examples.threshold_model
              Examples.seven_failures "fgsm" Examples.fgsm_args)))
           _ _ _ eq_refl)).
Defined.
